(** * The HoloViews slider/dropdown widget: frame cache and key lookup

    A shallow embedding of the browser-side widget class defined by the
    Jinja/JavaScript template (constructor, [init_slider],
    [populate_cache], [dynamic_update] and its response callback,
    [update_cache], [update], [set_frame]), followed by the properties
    of its frame cache, key map and key format. *)

From Stdlib Require Import ZArith Ascii String Floats.SpecFloat.
From stdpp Require Import gmap strings list fin_maps sorting pretty.

Local Open Scope string_scope.

(** ** JavaScript values handled by the widget *)

(** Slider and dropdown values are JSON scalars: IEEE doubles
    ([spec_float]: signed zeros, infinities, NaN, or a finite
    [(-1)^s * m * 2^e]) and strings.  Reading past the end of an array
    gives [undefined]. *)
Inductive jsval :=
  | VNum (x : spec_float)
  | VStr (s : string)
  | VUndef.

(** What [keyMap[key]] evaluates to: a frame number, or [undefined] when
    the key is absent.  As a property key ([x in obj], [obj[x]]) a
    number stands for its canonical decimal string and [undefined] for
    the string "undefined"; frame numbers are array indices. *)
Inductive index :=
  | Num (n : N)
  | Undefined.

Global Instance index_eq_dec : EqDecision index.
Proof. solve_decision. Defined.

Global Instance index_countable : Countable index.
Proof.
  refine (inj_countable'
            (λ k, match k with Num n => Some n | Undefined => None end)
            (λ o, match o with Some n => Num n | None => Undefined end) _).
  by intros [].
Defined.

(** ** Strings *)

Definition str_drop (n : nat) (s : string) : string :=
  String.substring n (String.length s - n) s.

(** [s.slice(1, -1)] *)
Definition slice_1_m1 (s : string) : string :=
  String.substring 1 (String.length s - 2) s.

(** ToString of a non-negative integer Number below [10^21]. *)
Definition N_to_string (n : N) : string := pretty n.

Definition index_to_string (k : index) : string :=
  match k with
  | Num n => N_to_string n
  | Undefined => "undefined"
  end.

(** *** String to number: which strings convert to NaN

    [isNaN(s)] on a string converts it with the StringNumericLiteral
    grammar: optional white space around either nothing (the number 0),
    a signed decimal literal, [Infinity], or an unsigned hexadecimal,
    octal or binary integer.  Strings are taken as UTF-8, so white space
    outside ASCII is recognised by its byte sequence. *)

Definition byte_of (c : ascii) : N := N_of_ascii c.

Definition is_ascii_ws (c : ascii) : bool :=
  let b := byte_of c in
  ((9 <=? b) && (b <=? 13) || (b =? 32))%N.

Fixpoint skip_ws (s : string) : string :=
  match s with
  | String c1 r1 =>
      if is_ascii_ws c1 then skip_ws r1 else
      match r1 with
      | String c2 r2 =>
          let b1 := byte_of c1 in
          let b2 := byte_of c2 in
          (* U+00A0 *)
          if ((b1 =? 194) && (b2 =? 160))%N then skip_ws r2 else
          match r2 with
          | String c3 r3 =>
              let b3 := byte_of c3 in
              if (* U+1680 *)
                 ((b1 =? 225) && (b2 =? 154) && (b3 =? 128)
                 (* U+2000 .. U+200A, U+2028, U+2029, U+202F *)
                 || (b1 =? 226) && (b2 =? 128)
                    && ((128 <=? b3) && (b3 <=? 138) || (b3 =? 168)
                        || (b3 =? 169) || (b3 =? 175))
                 (* U+205F *)
                 || (b1 =? 226) && (b2 =? 129) && (b3 =? 159)
                 (* U+3000 *)
                 || (b1 =? 227) && (b2 =? 128) && (b3 =? 128)
                 (* U+FEFF *)
                 || (b1 =? 239) && (b2 =? 187) && (b3 =? 191))%N
              then skip_ws r3 else s
          | EmptyString => s
          end
      | EmptyString => s
      end
  | EmptyString => s
  end.

Definition only_ws (s : string) : bool := bool_decide (skip_ws s = "").

Definition in_range (lo hi : N) (c : ascii) : bool :=
  ((lo <=? byte_of c) && (byte_of c <=? hi))%N.

Definition is_dec_digit (c : ascii) : bool := in_range 48 57 c.
Definition is_oct_digit (c : ascii) : bool := in_range 48 55 c.
Definition is_bin_digit (c : ascii) : bool := in_range 48 49 c.
Definition is_hex_digit (c : ascii) : bool :=
  in_range 48 57 c || in_range 65 70 c || in_range 97 102 c.

Fixpoint drop_digits (P : ascii → bool) (s : string) : string :=
  match s with
  | String c r => if P c then drop_digits P r else s
  | EmptyString => s
  end.

(** One or more digits; the rest of the string after them. *)
Definition digits1 (P : ascii → bool) (s : string) : option string :=
  match s with
  | String c r => if P c then Some (drop_digits P r) else None
  | EmptyString => None
  end.

Definition drop_sign (s : string) : string :=
  match s with
  | String c r => if bool_decide (c = "+"%char ∨ c = "-"%char) then r else s
  | EmptyString => s
  end.

(** An optional ExponentPart; without a complete one nothing is consumed. *)
Definition exponent_opt (s : string) : string :=
  match s with
  | String c r =>
      if bool_decide (c = "e"%char ∨ c = "E"%char)
      then default s (digits1 is_dec_digit (drop_sign r))
      else s
  | EmptyString => s
  end.

Definition unsigned_decimal (s : string) : option string :=
  if String.prefix "Infinity" s then Some (str_drop 8 s) else
  match digits1 is_dec_digit s with
  | Some r =>
      match r with
      | String "."%char r2 => Some (exponent_opt (drop_digits is_dec_digit r2))
      | _ => Some (exponent_opt r)
      end
  | None =>
      match s with
      | String "."%char r => exponent_opt <$> digits1 is_dec_digit r
      | _ => None
      end
  end.

Definition radix_literal (s : string) : option string :=
  match s with
  | String "0"%char (String c r) =>
      if bool_decide (c = "x"%char ∨ c = "X"%char) then digits1 is_hex_digit r
      else if bool_decide (c = "o"%char ∨ c = "O"%char) then digits1 is_oct_digit r
      else if bool_decide (c = "b"%char ∨ c = "B"%char) then digits1 is_bin_digit r
      else None
  | _ => None
  end.

Definition ends_clean (o : option string) : bool :=
  match o with
  | Some rest => only_ws rest
  | None => false
  end.

(** [isNaN(s)] for a string [s]. *)
Definition str_isNaN (s : string) : bool :=
  let t := skip_ws s in
  negb (bool_decide (t = "")
        || ends_clean (radix_literal t)
        || ends_clean (unsigned_decimal (drop_sign t))).

(** ** Numbers *)

Definition is_nan (x : spec_float) : bool :=
  match x with
  | S754_nan => true
  | _ => false
  end.

(** [x % 1 === 0]: the remainder is exact; it is NaN for NaN and the
    infinities, a zero exactly for the zeros and the finite integers. *)
Definition mod1_is_zero (x : spec_float) : bool :=
  match x with
  | S754_zero _ => true
  | S754_finite _ m e =>
      if (0 <=? e)%Z then true else (Z.pos m mod 2 ^ (- e) =? 0)%Z
  | _ => false
  end.

(** [m * 2^e >= 10^21] *)
Definition ge_1e21 (m : positive) (e : Z) : bool :=
  if (0 <=? e)%Z then (10 ^ 21 <=? Z.pos m * 2 ^ e)%Z
  else (10 ^ 21 * 2 ^ (- e) <=? Z.pos m)%Z.

(** The integer [n] for which [n / 10^f - m * 2^e] is closest to zero,
    the larger one of two. *)
Definition round_scaled (m : positive) (e : Z) (f : nat) : Z :=
  if (0 <=? e)%Z then (Z.pos m * 2 ^ e * 10 ^ Z.of_nat f)%Z
  else ((2 * Z.pos m * 10 ^ Z.of_nat f + 2 ^ (- e)) / 2 ^ (1 - e))%Z.

Fixpoint zeros (n : nat) : string :=
  match n with
  | O => ""
  | S n' => String "0"%char (zeros n')
  end.

(** The digits of [n] with a decimal point [f] places from the right,
    padded on the left so that at least one digit precedes the point. *)
Definition place_point (n : Z) (f : nat) : string :=
  let ds := N_to_string (Z.to_N n) in
  match f with
  | O => ds
  | S _ =>
      let k := String.length ds in
      let ds := if (k <=? f)%nat then zeros (f + 1 - k) +:+ ds else ds in
      let k := String.length ds in
      String.substring 0 (k - f) ds +:+ "." +:+ String.substring (k - f) f ds
  end.

Definition sign_prefix (s : bool) : string := if s then "-" else "".

(** The Number with integer value [z] (of no more than 53 bits). *)
Definition num (z : Z) : spec_float :=
  match z with
  | Z0 => S754_zero false
  | Zpos p => S754_finite false p 0
  | Zneg p => S754_finite true p 0
  end.

(** A server prefix and an engine conversion to run examples with. *)
Definition demo_server : string := "http://localhost:8888".
Definition demo_Number_toString (m : positive) (e : Z) : string := "1e+21".

(** ** Playing the slider from the keyboard

    The [keypress] handler of a slider, with [value], [max] and [min]
    (always 0) the slider's options and [delay] the template's
    [{{ delay }}]: the [setTimeout] calls it makes, in order, each with
    its timeout and the slider position its timer moves to.
<<
    if (event.which == 80 || event.which == 112) {
        for (var i=start; i<=stop; i++) { var delay = i*{{ delay }}; ... }
    }
    if (event.which == 82 || event.which == 114) {
        var count = 0;
        for (var i=start; i>=stop; i--) {
            var delay = count*{{ delay }}; count = count + 1; ... }
    }
>> *)
Definition play_forward (start stop delay : Z) : list (Z * Z) :=
  (λ i, (i * delay, i)%Z) <$> seqZ start (stop - start + 1).

Definition play_backward (start stop delay : Z) : list (Z * Z) :=
  (λ count, (count * delay, start - count)%Z) <$> seqZ 0 (start - stop + 1).

Definition keypress (which value max delay : Z) : list (Z * Z) :=
  ((if bool_decide (which = 80 ∨ which = 112)%Z
    then play_forward value max delay else [])
   ++ (if bool_decide (which = 82 ∨ which = 114)%Z
       then play_backward value 0 delay else []))%list.

(** [max: valMap.length - 1] *)
Definition slider_max (vals : list jsval) : Z := Z.of_nat (length vals) - 1.

Section Widget.

(** The [{{ server }}] prefix the template is rendered with. *)
Variable server : string.

(** Number-to-string conversion of the JavaScript engine for a finite
    magnitude [m * 2^e]; [toFixed] hands over to it from [10^21] on,
    where the digits chosen are left to the engine. *)
Variable Number_toString : positive → Z → string.

(** [x.toFixed(f)] for a Number [x] and [f] in [0 .. 20]. *)
Definition toFixed (x : spec_float) (f : nat) : string :=
  match x with
  | S754_nan => "NaN"
  | S754_zero _ => place_point 0 f
  | S754_infinity s => sign_prefix s +:+ "Infinity"
  | S754_finite s m e =>
      sign_prefix s +:+
      (if ge_1e21 m e then Number_toString m e
       else place_point (round_scaled m e f) f)
  end.

(** One round of the body of the key loop on [val]:
<<
    if (!(isNaN(val))) {
        if (val % 1 === 0) { var fixed = 1;} else { var fixed = 10;}
        val = val.toFixed(fixed)
    }
    ... "'" + val + "'"
>>
    [None] is the TypeError raised by [val.toFixed] when [val] passes
    the [isNaN] test without being a Number: strings have no [toFixed]. *)
Definition stringify (val : jsval) : option string :=
  match val with
  | VNum x =>
      if is_nan x then Some "NaN"
      else Some (toFixed x (if mod1_is_zero x then 1 else 10))
  | VStr s => if str_isNaN s then Some s else None
  | VUndef => Some "undefined"
  end.

(** ** Arrays *)

Definition array_get (l : list jsval) (i : nat) : jsval :=
  default VUndef (l !! i).

(** [l[i] = v]: an assignment past the end extends the array, the slots
    in between reading as [undefined]. *)
Definition array_set (i : nat) (v : jsval) (l : list jsval) : list jsval :=
  if (i <? length l)%nat then <[i := v]> l
  else l ++ replicate (i - length l) VUndef ++ [v].

(** The loop of [set_frame] from slider [i = len - todo] on. *)
Fixpoint key_loop (vals : list jsval) (len todo : nat) (key : string)
  : option string :=
  match todo with
  | O => Some key
  | S todo' =>
      let i := (len - todo)%nat in
      match stringify (array_get vals i) with
      | None => None
      | Some val =>
          let key := key +:+ "'" +:+ val +:+ "'" in
          let key :=
            if negb (i =? len - 1)%nat then key +:+ ", "
            else if (len =? 1)%nat then key +:+ ","
            else key in
          key_loop vals len todo' key
      end
  end.

Definition build_key (vals : list jsval) (len : nat) : option string :=
  (λ key, key +:+ ")") <$> key_loop vals len len "(".

(** ** The widget object, the DOM nodes it owns and the kernel *)

(** What a node holds: nothing yet, the markup given to [.html], or
    whatever the GET of the URL given to [.load] brings. *)
Inductive content :=
  | Blank
  | Markup (html : string)
  | Remote (url : string).

(** A [<div />] held in the cache: where it was appended, its [id]
    attribute, whether it is shown, and what [.html] or [.load] put in it. *)
Record element := Element {
  el_parent : string;
  el_id : string;
  el_visible : bool;
  el_content : content
}.

(** A [kernel.execute] call: the code sent, and the frame index the
    output callback registered with it is closed over. *)
Record request := Request {
  code : string;
  on_output : index
}.

(** The widget object with its fields as the constructor sets them,
    plus [embed], which [populate_cache] reads, and [kernel], the
    commands sent to [IPython.notebook.kernel] so far. *)
Record widget := Widget {
  frames : gmap index string;
  fig_id : string;
  img_id : string;
  id : string;
  slider_ids : list string;
  keyMap : gmap string N;
  current_frame : index;
  current_vals : list jsval;
  load_json : bool;
  mode : string;
  notFound : string;
  cached : bool;
  embed : bool;
  cache : gmap index element;
  kernel : list request
}.

Definition set_frames (f : gmap index string → gmap index string) (w : widget) : widget :=
  Widget (f (frames w)) (fig_id w) (img_id w) (id w) (slider_ids w) (keyMap w)
    (current_frame w) (current_vals w) (load_json w) (mode w) (notFound w)
    (cached w) (embed w) (cache w) (kernel w).

Definition set_cache (f : gmap index element → gmap index element) (w : widget) : widget :=
  Widget (frames w) (fig_id w) (img_id w) (id w) (slider_ids w) (keyMap w)
    (current_frame w) (current_vals w) (load_json w) (mode w) (notFound w)
    (cached w) (embed w) (f (cache w)) (kernel w).

Definition set_current_vals (f : list jsval → list jsval) (w : widget) : widget :=
  Widget (frames w) (fig_id w) (img_id w) (id w) (slider_ids w) (keyMap w)
    (current_frame w) (f (current_vals w)) (load_json w) (mode w) (notFound w)
    (cached w) (embed w) (cache w) (kernel w).

Definition set_current_frame (c : index) (w : widget) : widget :=
  Widget (frames w) (fig_id w) (img_id w) (id w) (slider_ids w) (keyMap w)
    c (current_vals w) (load_json w) (mode w) (notFound w)
    (cached w) (embed w) (cache w) (kernel w).

Definition kernel_execute (r : request) (w : widget) : widget :=
  Widget (frames w) (fig_id w) (img_id w) (id w) (slider_ids w) (keyMap w)
    (current_frame w) (current_vals w) (load_json w) (mode w) (notFound w)
    (cached w) (embed w) (cache w) (kernel w ++ [r]).

(** How a method call ends: it returns, leaving the widget as [w]; it
    is cut short by a TypeError, the widget staying as the statements
    before the throw left it; or the model ran out of loop fuel. *)
Inductive outcome :=
  | Done (w : widget)
  | TypeError (w : widget)
  | OutOfFuel.

Definition and_then (r : outcome) (k : widget → outcome) : outcome :=
  match r with
  | Done w => k w
  | _ => r
  end.

Notation "r >>> k" := (and_then r k) (at level 61, left associativity).

Definition state_of (r : outcome) : option widget :=
  match r with
  | Done w | TypeError w => Some w
  | OutOfFuel => None
  end.

(** [k in obj] *)
Definition has_key {V} (k : index) (obj : gmap index V) : bool :=
  bool_decide (is_Some (obj !! k)).

Definition num_of (k : index) : option N :=
  match k with
  | Num n => Some n
  | Undefined => None
  end.

Definition num_keys {V} (obj : gmap index V) : list N :=
  omap num_of (elements (dom obj)).

Definition sorted_keys {V} (obj : gmap index V) : list N :=
  merge_sort N.le (num_keys obj).

(** [Object.keys(obj)]: the integer keys in ascending order, then the
    string keys. *)
Definition obj_keys {V} (obj : gmap index V) : list index :=
  ((Num <$> sorted_keys obj)
   ++ (if has_key Undefined obj then [Undefined] else []))%list.

(** ** The methods *)

Definition hide (el : element) : element :=
  Element (el_parent el) (el_id el) false (el_content el).

Definition show (el : element) : element :=
  Element (el_parent el) (el_id el) true (el_content el).

Definition set_content (c : content) (el : element) : element :=
  Element (el_parent el) (el_id el) (el_visible el) c.

(** [el.html(v)]: with [undefined] for [v] the call only reads. *)
Definition html (v : option string) (el : element) : element :=
  match v with
  | Some s => set_content (Markup s) el
  | None => el
  end.

Definition populate_cache (idx : index) (w : widget) : outcome :=
  if load_json w then
    let data_url := server +:+ "/" +:+ fig_id w +:+ "/" +:+ index_to_string idx in
    match cache w !! idx with
    | Some el => Done (set_cache <[idx := set_content (Remote data_url) el]> w)
    | None => TypeError w
    end
  else
    match cache w !! idx with
    | Some el =>
        let w := set_cache <[idx := html (frames w !! idx) el]> w in
        Done (if embed w then set_frames (delete idx) w else w)
    | None => TypeError w
    end.

(** [$('<div />').appendTo("#" + this.img_id).hide()] with its [id]
    attribute set to [this.img_id + "_" + i]. *)
Definition new_div (w : widget) (i : index) : element :=
  Element ("#" +:+ img_id w) (img_id w +:+ "_" +:+ index_to_string i) false Blank.

(** The key the body of the [for] loop of [update_cache] works on when
    it is entered with loop variable [i]: [i] itself with [load_json],
    else [Object.keys(this.frames)[i]], which the body assigns to [i]. *)
Definition loop_key (i : N) (w : widget) : index :=
  if load_json w then Num i
  else default Undefined (obj_keys (frames w) !! N.to_nat i).

(** [if(!(i in this.cache)) { ... }] *)
Definition loop_body (i : index) (w : widget) : outcome :=
  if negb (has_key i (cache w))
  then populate_cache i (set_cache <[i := new_div w i]> w)
  else Done w.

(** The [for] loop of [update_cache].  Since the body has overwritten
    [i], the increment [i++] counts on from the key: a key that is a
    number [k] leaves [k + 1], any other key leaves NaN, which fails the
    loop test. *)
Fixpoint update_cache_loop (fuel : nat) (frame_len i : N) (w : widget) : outcome :=
  if (i <? frame_len)%N then
    match fuel with
    | O => OutOfFuel
    | S fuel' =>
        let i := loop_key i w in
        loop_body i w >>>
        match i with
        | Num k => update_cache_loop fuel' frame_len (k + 1)
        | Undefined => Done
        end
    end
  else Done w.

Definition frame_len (w : widget) : N :=
  N.of_nat (if load_json w then size (keyMap w) else size (frames w)).

Definition update_cache (w : widget) : outcome :=
  update_cache_loop (N.to_nat (frame_len w)) (frame_len w) 0 w.

Definition update (current : index) (w : widget) : outcome :=
  if has_key current (cache w)
  then Done (set_cache (λ c, alter show current (hide <$> c)) w)
  else Done w.

Definition update_cmd (w : widget) (current : index) : string :=
  "holoviews.plotting.widgets.NdWidget.widgets['" +:+ id w +:+ "'].update("
  +:+ index_to_string current +:+ ")".

Definition dynamic_update (current : index) (w : widget) : outcome :=
  if negb (has_key current (cache w))
  then Done (kernel_execute
               (Request ("import holoviews;" +:+ update_cmd w current) current) w)
  else update current w.

(** The [callback] closure of [dynamic_update(current)], run on an
    output message whose [text/plain] data is [text]. *)
Definition callback (current : index) (text : string) (w : widget) : outcome :=
  let data := slice_1_m1 text in
  update_cache (set_frames <[current := data]> w) >>> update current.

Definition init_slider (init_val : jsval) (w : widget) : outcome :=
  if cached w then update_cache w >>> update (Num 0)
  else dynamic_update (Num 0) w.

Definition lookup_frame (w : widget) (key : string) : index :=
  match keyMap w !! key with
  | Some n => Num n
  | None => Undefined
  end.

Definition set_frame (dim_val : jsval) (dim_idx : nat) (w : widget) : outcome :=
  let w := set_current_vals (array_set dim_idx dim_val) w in
  match build_key (current_vals w) (length (slider_ids w)) with
  | None => TypeError w
  | Some key =>
      let current := lookup_frame w key in
      let w := set_current_frame current w in
      if cached w then update current w else dynamic_update current w
  end.

(** The state the constructor has built when it calls [init_slider];
    [embed] is a property the constructor never sets. *)
Definition fresh (frames0 : gmap index string) (id0 : string)
    (slider_ids0 : list string) (keyMap0 : gmap string N)
    (dim_vals : list jsval) (notFound0 : string) (load_json0 : bool)
    (mode0 : string) (cached0 : bool) : widget :=
  Widget frames0 ("fig_" +:+ id0) ("_anim_img" +:+ id0) id0 slider_ids0 keyMap0
    (Num 0) dim_vals load_json0 mode0 notFound0 cached0 false ∅ [].

Definition constructor (frames0 : gmap index string) (id0 : string)
    (slider_ids0 : list string) (keyMap0 : gmap string N)
    (dim_vals : list jsval) (notFound0 : string) (load_json0 : bool)
    (mode0 : string) (cached0 : bool) : outcome :=
  let w := fresh frames0 id0 slider_ids0 keyMap0 dim_vals notFound0
             load_json0 mode0 cached0 in
  init_slider (array_get (current_vals w) 0) w.

(** * Vocabulary of the properties *)

(** An object whose keys are exactly the numbers below [n] enumerates
    them as [0, 1, ..., n - 1]. *)
Definition dense {V} (obj : gmap index V) (n : nat) : Prop :=
  ∀ k, is_Some (obj !! k) ↔ ∃ i, (i < n)%nat ∧ k = Num (N.of_nat i).

Definition upto (n : nat) : list N := N.of_nat <$> seq 0 n.

(** The cache entry [update_cache] creates for key [k]. *)
Definition filled (w : widget) (k : index) : element :=
  Element ("#" +:+ img_id w) (img_id w +:+ "_" +:+ index_to_string k) false
    (if load_json w
     then Remote (server +:+ "/" +:+ fig_id w +:+ "/" +:+ index_to_string k)
     else match frames w !! k with
          | Some s => Markup s
          | None => Blank
          end).

Definition add_entry (k : index) (w : widget) : widget :=
  let w1 := set_cache <[k := filled w k]> w in
  if embed w && negb (load_json w) then set_frames (delete k) w1 else w1.

(** Everything of the widget but [frames] and [cache]. *)
Definition rest (w : widget) :=
  (fig_id w, img_id w, id w, slider_ids w, keyMap w, current_frame w,
   current_vals w, load_json w, mode w, notFound w, cached w, embed w,
   kernel w).

(** [grown w0 w]: from [w0] to [w] the cache has only gained entries.
    An entry of [w0] is still there unchanged and so is its frame; a key
    outside the cache of [w0] is either still outside, or holds the
    entry [update_cache] creates for it, hidden, its frame deleted when
    [embed] says so. *)
Definition grown (w0 w : widget) : Prop :=
  rest w = rest w0 ∧
  ∀ k, match cache w0 !! k with
       | Some el => cache w !! k = Some el ∧ frames w !! k = frames w0 !! k
       | None =>
           (cache w !! k = None ∧ frames w !! k = frames w0 !! k)
           ∨ (cache w !! k = Some (filled w0 k)
              ∧ frames w !! k
                = if embed w0 && negb (load_json w0) then None
                  else frames w0 !! k)
       end.

(** When the loop counts [0, 1, 2, ...]: with [load_json] always, else
    when the frames are numbered from 0 without gaps and stay in place. *)
Definition counts (w : widget) (len : N) : Prop :=
  load_json w = true ∨ (embed w = false ∧ dense (frames w) (N.to_nat len)).

(** What [update(current)] makes of the entry under key [k]. *)
Definition reveal (current k : index) (el : element) : element :=
  if decide (k = current) then show el else hide el.

(** At most one cached frame is shown. *)
Definition at_most_one_visible (w : widget) : Prop :=
  ∀ k1 k2 e1 e2,
    cache w !! k1 = Some e1 → cache w !! k2 = Some e2 →
    el_visible e1 = true → el_visible e2 = true → k1 = k2.

(** A method call, or a response callback run by the kernel. *)
Inductive call :=
  | CallInitSlider (init_val : jsval)
  | CallPopulateCache (idx : index)
  | CallDynamicUpdate (current : index)
  | CallCallback (current : index) (text : string)
  | CallUpdateCache
  | CallUpdate (current : index)
  | CallSetFrame (dim_val : jsval) (dim_idx : nat).

Definition invoke (c : call) : widget → outcome :=
  match c with
  | CallInitSlider init_val => init_slider init_val
  | CallPopulateCache idx => populate_cache idx
  | CallDynamicUpdate current => dynamic_update current
  | CallCallback current text => callback current text
  | CallUpdateCache => update_cache
  | CallUpdate current => update current
  | CallSetFrame dim_val dim_idx => set_frame dim_val dim_idx
  end.

(** The states of a widget: as the constructor leaves it, and after any
    further method call or response callback, also one that threw. *)
Inductive reachable : widget → Prop :=
  | reachable_new frames0 id0 slider_ids0 keyMap0 dim_vals notFound0
      load_json0 mode0 cached0 w :
      constructor frames0 id0 slider_ids0 keyMap0 dim_vals notFound0
        load_json0 mode0 cached0 = Done w →
      reachable w
  | reachable_call c w w' :
      reachable w → state_of (invoke c w) = Some w' → reachable w'.

(** What the constructor arguments fix for good. *)
Definition config (w : widget) :=
  (fig_id w, img_id w, id w, slider_ids w, keyMap w, load_json w, mode w,
   notFound w, cached w, embed w).

(** [advances w w']: the configuration is the same, no cache key is
    lost, and at most one frame is shown if that was so before. *)
Definition advances (w w' : widget) : Prop :=
  config w' = config w
  ∧ (∀ k, is_Some (cache w !! k) → is_Some (cache w' !! k))
  ∧ (at_most_one_visible w → at_most_one_visible w').

(** The request [dynamic_update(current)] sends. *)
Definition update_request (w : widget) (current : index) : request :=
  Request ("import holoviews;" +:+ update_cmd w current) current.

Definition quoted (s : string) : string := "'" +:+ s +:+ "'".

Fixpoint join_comma (items : list string) : string :=
  match items with
  | [] => ""
  | [x] => x
  | x :: rest => x +:+ ", " +:+ join_comma rest
  end.

(** A parenthesised tuple of single-quoted items separated by ", ",
    with a comma after a lone item. *)
Definition tuple_key (items : list string) : string :=
  "(" +:+ join_comma (quoted <$> items)
  +:+ (if (length items =? 1)%nat then "," else "") +:+ ")".

(** The slider values the loop reads: [current_vals[0 .. len - 1]]. *)
Definition slider_vals (vals : list jsval) (len : nat) : list jsval :=
  array_get vals <$> seq 0 len.

(** What the loop appends for the items from slider [i] on. *)
Fixpoint key_tail (len i : nat) (items : list string) : string :=
  match items with
  | [] => ""
  | x :: rest =>
      quoted x
      +:+ (if negb (i =? len - 1)%nat then ", "
           else if (len =? 1)%nat then "," else "")
      +:+ key_tail len (S i) rest
  end.

(** The states of a cached widget under its sliders and dropdowns: built
    over a frame map keyed by frame numbers, then moved by [set_frame]. *)
Inductive slider_driven : widget → Prop :=
  | driven_new frames0 id0 slider_ids0 keyMap0 dim_vals notFound0
      load_json0 mode0 w :
      frames0 !! Undefined = None →
      constructor frames0 id0 slider_ids0 keyMap0 dim_vals notFound0
        load_json0 mode0 true = Done w →
      slider_driven w
  | driven_set_frame dim_val dim_idx w w' :
      slider_driven w →
      state_of (set_frame dim_val dim_idx w) = Some w' →
      slider_driven w'.

(** ** Example widgets *)

(** Two frames over one numeric slider, cached. *)
Definition slider_widget : outcome :=
  constructor {[ Num 0 := "<p>a</p>"; Num 1 := "<p>b</p>" ]} "1"
    ["_anim_widget1_x"] {[ "('0.0',)" := 0%N; "('0.5000000000',)" := 1%N ]}
    [VNum (num 0)] "" false "" true.

(** One frame, numbered 1, cached. *)
Definition lone_frame_widget : outcome :=
  constructor {[ Num 1 := "<p>one</p>" ]} "1" ["_anim_widget1_x"]
    {[ "('1.0',)" := 1%N ]} [VNum (num 1)] "" false "" true.

(** The same slider on a live kernel: nothing cached, no frame yet. *)
Definition live_widget : outcome :=
  constructor ∅ "1" ["_anim_widget1_x"]
    {[ "('0.0',)" := 0%N; "('0.5000000000',)" := 1%N ]}
    [VNum (num 0)] "" false "" false.

(** The live widget once frames 0 and 2 have been fetched and frame 3
    has been asked for. *)
Definition gap_widget : outcome :=
  live_widget >>> callback (Num 0) "'<p>a</p>'"
  >>> dynamic_update (Num 2) >>> callback (Num 2) "'<p>c</p>'"
  >>> dynamic_update (Num 3).

(** One slider over the values 0, 1, 2 and 3, a frame for each, on a
    live kernel. *)
Definition four_value_widget : outcome :=
  constructor ∅ "1" ["_anim_widget1_x"]
    {[ "('0.0',)" := 0%N; "('1.0',)" := 1%N; "('2.0',)" := 2%N;
       "('3.0',)" := 3%N ]}
    [VNum (num 0)] "" false "" false.

(** A session on it: the response for frame 0 arrives, the slider is
    moved to 2 and the response for frame 2 arrives. *)
Definition gap_session : outcome :=
  four_value_widget >>> callback (Num 0) "'<p>a</p>'"
  >>> set_frame (VNum (num 2)) 0 >>> callback (Num 2) "'<p>c</p>'".

(** A map over the years 2014 and 2015, given as strings, drawn with one
    dropdown, cached. *)
Definition year_frames : gmap index string :=
  {[ Num 0 := "<p>2014</p>"; Num 1 := "<p>2015</p>" ]}.

Definition year_keyMap : gmap string N :=
  {[ "('2014',)" := 0%N; "('2015',)" := 1%N ]}.

Definition year_widget : outcome :=
  constructor year_frames "1" ["_anim_widget1_Year"] year_keyMap
    [VStr "2014"] "" false "" true.

(** * The controls

    The template's script for one dimension: a jQuery UI slider with a
    text box, or a dropdown, over the dimension's values [valMap]. *)

Record control := Control {
  dim : string;
  dim_idx : nat;
  valMap : list jsval
}.

(** The page around a created widget [anim]: per dimension, what was
    last given to [.val] of its text box. *)
Record page := Page {
  textInput : gmap string jsval;
  anim : widget
}.

(** The body of the slider's [slide] handler, called with [ui.value]:
<<
    var dim_val = valMap[ui.value];
    $('#textInput...').val(dim_val);
    anim.set_frame(dim_val, dim_idx);
>>
    The throttling around it decides when a call gets through, not what
    it does. *)
Definition slide (c : control) (ui_value : nat) (p : page)
  : gmap string jsval * outcome :=
  let dim_val := array_get (valMap c) ui_value in
  (<[dim c := dim_val]> (textInput p),
   set_frame dim_val (dim_idx c) (anim p)).

(** The dropdown's [change] handler, [this.value] being the option
    chosen. *)
Definition change (c : control) (value : nat) (p : page)
  : gmap string jsval * outcome :=
  let dim_val := array_get (valMap c) value in
  (textInput p, set_frame dim_val (dim_idx c) (anim p)).

Inductive ui_event :=
  | Slide (c : control) (ui_value : nat)
  | Change (c : control) (value : nat).

Definition handle (e : ui_event) (p : page) : gmap string jsval * outcome :=
  match e with
  | Slide c ui_value => slide c ui_value p
  | Change c value => change c value p
  end.

(** How the handlers of a sequence of events end, one after the other.
    A handler that throws ends there; the next event finds the page as
    the throw left it. *)
Fixpoint outcomes (evs : list ui_event) (p : page) : list outcome :=
  match evs with
  | [] => []
  | e :: evs' =>
      let r := handle e p in
      r.2 :: match state_of r.2 with
             | Some w => outcomes evs' (Page r.1 w)
             | None => []
             end
  end.

(** The page after the events. *)
Fixpoint after (evs : list ui_event) (p : page) : option page :=
  match evs with
  | [] => Some p
  | e :: evs' =>
      let r := handle e p in
      match state_of r.2 with
      | Some w => after evs' (Page r.1 w)
      | None => None
      end
  end.

(** A value [set_frame] can put in a key: anything but a string that
    converts to a number. *)
Definition keyable (v : jsval) : Prop :=
  ∀ s, v = VStr s → str_isNaN s = true.

Definition keyable_event (e : ui_event) : Prop :=
  match e with
  | Slide c _ | Change c _ => Forall keyable (valMap c)
  end.

(** Every character of [s] passes [P]. *)
Fixpoint all_chars (P : ascii → bool) (s : string) : bool :=
  match s with
  | EmptyString => true
  | String c r => P c && all_chars P r
  end.

Definition quote_free (s : string) : bool :=
  all_chars (λ c, negb (bool_decide (c = "'"%char))) s.

(** The key after its opening parenthesis, read item by item. *)
Fixpoint key_more (items : list string) : string :=
  match items with
  | [] => ")"
  | x :: rest => ", '" +:+ x +:+ "'" +:+ key_more rest
  end.

Definition key_items (items : list string) : string :=
  match items with
  | [] => ")"
  | [x] => "'" +:+ x +:+ "',)"
  | x :: rest => "'" +:+ x +:+ "'" +:+ key_more rest
  end.

(** Two frames fetched by URL, on a live kernel. *)
Definition remote_widget : outcome :=
  constructor ∅ "1" ["_anim_widget1_x"]
    {[ "('0.0',)" := 0%N; "('0.5000000000',)" := 1%N ]}
    [VNum (num 0)] "" true "" false.

(** * Properties *)

(** ** Property keys in enumeration order *)

Lemma elem_of_num_keys {V} (obj : gmap index V) (n : N) :
  n ∈ num_keys obj ↔ is_Some (obj !! Num n).
Proof.
  unfold num_keys. rewrite list_elem_of_omap. split.
  - intros ([m|] & Hin & Hm); simplify_eq/=.
    by apply elem_of_dom, elem_of_elements.
  - intros Hs. exists (Num n). split; [|done].
    by apply elem_of_elements, elem_of_dom.
Qed.

Lemma NoDup_omap_inj {A B} (f : A → option B) (l : list A) :
  (∀ x y z, f x = Some z → f y = Some z → x = y) →
  NoDup l → NoDup (omap f l).
Proof.
  intros Hinj. induction 1 as [|x l Hx Hl IH]; simpl; [constructor|].
  destruct (f x) as [z|] eqn:Hfx; [|done].
  constructor; [|done].
  rewrite list_elem_of_omap. intros (y & Hy & Hfy).
  by rewrite (Hinj x y z Hfx Hfy) in Hx.
Qed.

Lemma NoDup_num_keys {V} (obj : gmap index V) : NoDup (num_keys obj).
Proof.
  unfold num_keys. apply NoDup_omap_inj; [|apply NoDup_elements].
  intros [x|] [y|] z; simpl; congruence.
Qed.

Lemma sorted_keys_sorted {V} (obj : gmap index V) :
  StronglySorted N.le (sorted_keys obj).
Proof. apply StronglySorted_merge_sort; apply _. Qed.

Lemma sorted_keys_NoDup {V} (obj : gmap index V) : NoDup (sorted_keys obj).
Proof.
  unfold sorted_keys. rewrite merge_sort_Permutation. apply NoDup_num_keys.
Qed.

Lemma elem_of_sorted_keys {V} (obj : gmap index V) (n : N) :
  n ∈ sorted_keys obj ↔ is_Some (obj !! Num n).
Proof.
  unfold sorted_keys. rewrite merge_sort_Permutation. apply elem_of_num_keys.
Qed.

(** In an ascending list without repetition the entry at a position is
    at least the position, counted from any lower bound of the list. *)
Lemma ascending_lookup_ge (l : list N) :
  StronglySorted N.le l → NoDup l →
  ∀ (lo : N) (i : nat) (k : N),
    Forall (N.le lo) l → l !! i = Some k → (lo + N.of_nat i ≤ k)%N.
Proof.
  induction 1 as [|x l Hl IH Hx]; intros Hnd lo i k Hlo Hik; [done|].
  apply NoDup_cons in Hnd as [Hxl Hnd].
  apply Forall_cons in Hlo as [Hlox Hlo].
  destruct i as [|i]; simplify_eq/=; [lia|].
  assert (Forall (N.le (lo + 1)) l) as Hlo'.
  { rewrite Forall_forall in Hx, Hlo |- *. intros y Hy.
    specialize (Hx y Hy). assert (y ≠ x) by (by intros ->). lia. }
  specialize (IH Hnd (lo + 1)%N i k Hlo' Hik). lia.
Qed.

Lemma obj_keys_lookup_ge {V} (obj : gmap index V) (i : nat) (k : N) :
  obj_keys obj !! i = Some (Num k) → (N.of_nat i ≤ k)%N.
Proof.
  unfold obj_keys. intros Hi.
  apply lookup_app_Some in Hi as [Hi|[Hlen Hi]].
  - rewrite list_lookup_fmap in Hi.
    destruct (sorted_keys obj !! i) as [k'|] eqn:Hk; simplify_eq/=.
    apply (ascending_lookup_ge _ (sorted_keys_sorted obj)
             (sorted_keys_NoDup obj) 0%N i k); [|done].
    apply Forall_forall. intros; lia.
  - destruct (has_key Undefined obj); [|by rewrite lookup_nil in Hi].
    apply list_lookup_singleton_Some in Hi as [_ ?]. done.
Qed.

Lemma elem_of_obj_keys {V} (obj : gmap index V) (k : index) :
  k ∈ obj_keys obj ↔ is_Some (obj !! k).
Proof.
  unfold obj_keys. rewrite elem_of_app, list_elem_of_fmap.
  destruct k as [n|].
  - split.
    + intros [(m & [= <-] & Hm)|Hu].
      * by apply elem_of_sorted_keys.
      * destruct (has_key Undefined obj);
          [by apply list_elem_of_singleton in Hu|by apply elem_of_nil in Hu].
    + intros Hs. left. exists n. split; [done|]. by apply elem_of_sorted_keys.
  - unfold has_key. split.
    + intros [(m & ? & Hm)|Hu]; [done|].
      case_bool_decide; [done|]. by apply elem_of_nil in Hu.
    + intros Hs. right. rewrite bool_decide_eq_true_2 by done. set_solver.
Qed.

Lemma obj_keys_lookup_Some {V} (obj : gmap index V) (i : nat) (k : index) :
  obj_keys obj !! i = Some k → is_Some (obj !! k).
Proof. intros Hi. apply elem_of_obj_keys. by eapply list_elem_of_lookup_2. Qed.

Lemma Sorted_upto_from (j n : nat) : Sorted N.le (N.of_nat <$> seq j n).
Proof.
  revert j. induction n as [|n IH]; intros j; simpl; [constructor|].
  constructor; [apply IH|].
  destruct n; simpl; constructor. lia.
Qed.

Lemma elem_of_upto (n : nat) (x : N) : x ∈ upto n ↔ (x < N.of_nat n)%N.
Proof.
  unfold upto. rewrite list_elem_of_fmap. split.
  - intros (i & -> & Hi%elem_of_seq). lia.
  - intros Hx. exists (N.to_nat x). split; [lia|]. apply elem_of_seq. lia.
Qed.

Lemma NoDup_upto (n : nat) : NoDup (upto n).
Proof. apply NoDup_fmap_2; [apply _|apply NoDup_seq]. Qed.

Lemma lookup_upto (n i : nat) :
  (i < n)%nat → upto n !! i = Some (N.of_nat i).
Proof.
  intros Hi. unfold upto. by rewrite list_lookup_fmap, lookup_seq_lt.
Qed.

Lemma dense_sorted_keys {V} (obj : gmap index V) (n : nat) :
  dense obj n → sorted_keys obj = upto n.
Proof.
  intros Hd.
  apply (Sorted_unique N.le).
  - apply StronglySorted_Sorted, sorted_keys_sorted.
  - apply Sorted_upto_from.
  - apply NoDup_Permutation; [apply sorted_keys_NoDup|apply NoDup_upto|].
    intros x. rewrite elem_of_sorted_keys, elem_of_upto, (Hd (Num x)). split.
    + intros (i & Hi & Hx). simplify_eq. lia.
    + intros Hx. exists (N.to_nat x). split; [lia|]. f_equal. lia.
Qed.

Lemma dense_obj_keys {V} (obj : gmap index V) (n : nat) :
  dense obj n → obj_keys obj = Num <$> upto n.
Proof.
  intros Hd. unfold obj_keys. rewrite (dense_sorted_keys obj n Hd).
  unfold has_key. rewrite bool_decide_eq_false_2; [by rewrite app_nil_r|].
  rewrite (Hd Undefined). by intros (i & _ & ?).
Qed.

Lemma dense_size {V} (obj : gmap index V) (n : nat) :
  dense obj n → size obj = n.
Proof.
  intros Hd. rewrite <- size_dom.
  change (size (dom obj)) with (length (elements (dom obj))).
  transitivity (length (Num <$> upto n)).
  - apply Permutation_length, NoDup_Permutation.
    + apply NoDup_elements.
    + apply NoDup_fmap_2; [by intros ?? [=]|apply NoDup_upto].
    + intros k. rewrite elem_of_elements, elem_of_dom, (Hd k), list_elem_of_fmap.
      split.
      * intros (i & Hi & ->). exists (N.of_nat i). split; [done|].
        apply elem_of_upto. lia.
      * intros (x & -> & Hx%elem_of_upto). exists (N.to_nat x).
        split; [lia|]. f_equal. lia.
  - unfold upto. by rewrite !length_fmap, length_seq.
Qed.

(** ** The loop of [update_cache] *)

Lemma loop_body_eq (k : index) (w : widget) :
  loop_body k w = Done (if has_key k (cache w) then w else add_entry k w).
Proof.
  unfold loop_body, add_entry, populate_cache, filled.
  destruct (has_key k (cache w)); simpl; [done|].
  rewrite lookup_insert_eq.
  destruct w as [fr fi im i si km cf cv lj mo nf ca em ch ke]; simpl.
  destruct lj; unfold set_cache; simpl; rewrite insert_insert_eq;
    [by rewrite andb_false_r|].
  rewrite andb_true_r. destruct (fr !! k); by destruct em.
Qed.

Lemma loop_key_ge (i n : N) (w : widget) :
  loop_key i w = Num n → (i ≤ n)%N.
Proof.
  unfold loop_key. destruct (load_json w); [intros [= <-]; lia|].
  destruct (obj_keys (frames w) !! N.to_nat i) as [k|] eqn:Hk; [|done].
  simpl. intros ->. apply obj_keys_lookup_ge in Hk. lia.
Qed.

(** Invariant rule for the loop: [P i w] holds on entry to the test with
    loop variable [i], [Q w] when the loop is left.  With fuel for the
    distance from [i] to [frame_len] the loop returns. *)
Lemma update_cache_loop_rule (len : N)
    (P : N → widget → Prop) (Q : widget → Prop) :
  (∀ i w, (i < len)%N → P i w →
     let k := loop_key i w in
     let w1 := if has_key k (cache w) then w else add_entry k w in
     match k with
     | Num n => P (n + 1)%N w1
     | Undefined => Q w1
     end) →
  (∀ i w, (len ≤ i)%N → P i w → Q w) →
  ∀ fuel i w, (N.to_nat (len - i) ≤ fuel)%nat → P i w →
    ∃ w', update_cache_loop fuel len i w = Done w' ∧ Q w'.
Proof.
  intros Hbody Hexit fuel.
  induction fuel as [|fuel IH]; intros i w Hfuel HP; simpl.
  - destruct (N.ltb_spec i len); [lia|]. eauto.
  - destruct (N.ltb_spec i len) as [Hlt|Hge]; [|eauto].
    specialize (Hbody i w Hlt HP). simpl in Hbody.
    rewrite loop_body_eq. simpl.
    destruct (loop_key i w) as [n|] eqn:Hk; [|eauto].
    apply IH; [|done]. apply loop_key_ge in Hk. lia.
Qed.

(** [update_cache] always returns. *)
Lemma update_cache_returns (w : widget) : ∃ w', update_cache w = Done w'.
Proof.
  destruct (update_cache_loop_rule (frame_len w) (λ _ _, True) (λ _, True))
    with (fuel := N.to_nat (frame_len w)) (i := 0%N) (w := w)
    as (w' & Hw' & _); try done.
  - intros i w0 _ _. by destruct (loop_key i w0).
  - lia.
  - by exists w'.
Qed.

Lemma rest_add_entry (k : index) (w : widget) : rest (add_entry k w) = rest w.
Proof. unfold add_entry. simpl. by destruct (embed w && negb (load_json w)). Qed.

Lemma cache_add_entry (k : index) (w : widget) :
  cache (add_entry k w) = <[k := filled w k]> (cache w).
Proof. unfold add_entry. simpl. by destruct (embed w && negb (load_json w)). Qed.

Lemma frames_add_entry (k : index) (w : widget) :
  frames (add_entry k w)
  = if embed w && negb (load_json w) then delete k (frames w) else frames w.
Proof. unfold add_entry. simpl. by destruct (embed w && negb (load_json w)). Qed.

Lemma rest_fields (w w0 : widget) :
  rest w = rest w0 →
  fig_id w = fig_id w0 ∧ img_id w = img_id w0 ∧ load_json w = load_json w0
  ∧ embed w = embed w0 ∧ keyMap w = keyMap w0 ∧ kernel w = kernel w0
  ∧ cached w = cached w0.
Proof. unfold rest. intros [=]. by repeat split. Qed.

Lemma filled_ext (w w0 : widget) (k : index) :
  rest w = rest w0 → frames w !! k = frames w0 !! k →
  filled w k = filled w0 k.
Proof.
  intros (Hf & Hi & Hl & _)%rest_fields Hk. unfold filled.
  by rewrite Hf, Hi, Hl, Hk.
Qed.

Lemma grown_refl (w : widget) : grown w w.
Proof. split; [done|]. intros k. destruct (cache w !! k); auto. Qed.

Lemma grown_add_entry (w0 w : widget) (k : index) :
  grown w0 w → cache w !! k = None → grown w0 (add_entry k w).
Proof.
  intros [Hrest Hkeys] Hk. split; [by rewrite rest_add_entry|].
  pose proof (rest_fields _ _ Hrest) as (_ & _ & Hl & He & _).
  intros k'. specialize (Hkeys k').
  rewrite cache_add_entry, frames_add_entry, He, Hl.
  destruct (decide (k' = k)) as [->|Hne].
  - rewrite lookup_insert_eq.
    destruct (cache w0 !! k) as [el|]; [destruct Hkeys; congruence|].
    destruct Hkeys as [[_ Hfr]|[? _]]; [|congruence].
    right. split; [by rewrite (filled_ext w w0)|].
    destruct (embed w0 && negb (load_json w0)); [apply lookup_delete_eq|done].
  - rewrite lookup_insert_ne by done.
    assert ((if embed w0 && negb (load_json w0)
             then delete k (frames w) else frames w) !! k' = frames w !! k')
      as ->; [|done].
    destruct (embed w0 && negb (load_json w0)); [by apply lookup_delete_ne|done].
Qed.

Lemma grown_step (w0 w : widget) (k : index) :
  grown w0 w → grown w0 (if has_key k (cache w) then w else add_entry k w).
Proof.
  intros Hg. unfold has_key. case_bool_decide as Hk; [done|].
  apply grown_add_entry; [done|]. by apply eq_None_not_Some.
Qed.

Lemma grown_cache_preserved (w0 w : widget) (k : index) (el : element) :
  grown w0 w → cache w0 !! k = Some el → cache w !! k = Some el.
Proof. intros [_ Hk] Hel. specialize (Hk k). rewrite Hel in Hk. tauto. Qed.

Lemma grown_frames (w0 w : widget) :
  grown w0 w → embed w0 = false → frames w = frames w0.
Proof.
  intros [_ Hkeys] He. apply map_eq. intros k. specialize (Hkeys k).
  rewrite He in Hkeys. simpl in Hkeys.
  destruct (cache w0 !! k); [tauto|]. destruct Hkeys; tauto.
Qed.

Lemma grown_frames_sub (w0 w : widget) (k : index) :
  grown w0 w → is_Some (frames w !! k) → frames w !! k = frames w0 !! k.
Proof.
  intros [_ Hkeys] Hs. specialize (Hkeys k).
  destruct (cache w0 !! k); [tauto|].
  destruct Hkeys as [[_ ?]|[_ Hfr]]; [done|].
  destruct (embed w0 && negb (load_json w0)); [|done].
  rewrite Hfr in Hs. by destruct Hs.
Qed.

Lemma update_cache_loop_grown (len : N) (fuel : nat) (i : N) (w0 w : widget) :
  (N.to_nat (len - i) ≤ fuel)%nat → grown w0 w →
  ∃ w', update_cache_loop fuel len i w = Done w' ∧ grown w0 w'.
Proof.
  apply (update_cache_loop_rule len (λ _, grown w0) (grown w0)); [|done].
  intros j w1 _ Hg. simpl.
  pose proof (grown_step w0 w1 (loop_key j w1) Hg).
  by destruct (loop_key j w1).
Qed.

Lemma update_cache_grown (w : widget) :
  ∃ w', update_cache w = Done w' ∧ grown w w'.
Proof.
  apply update_cache_loop_grown; [lia|apply grown_refl].
Qed.

Lemma counts_loop_key (w0 w : widget) (len i : N) :
  counts w0 len → grown w0 w → (i < len)%N → loop_key i w = Num i.
Proof.
  intros Hc Hg Hi. unfold loop_key.
  pose proof (rest_fields _ _ (proj1 Hg)) as (_ & _ & Hl & _).
  rewrite Hl. destruct (load_json w0) eqn:Hlj; [done|].
  destruct Hc as [?|[He Hd]]; [congruence|].
  rewrite (grown_frames w0 w Hg He), (dense_obj_keys _ _ Hd).
  rewrite list_lookup_fmap, lookup_upto by lia. simpl.
  by rewrite N2Nat.id.
Qed.

Lemma has_key_step (k k' : index) (w : widget) :
  is_Some (cache (if has_key k (cache w) then w else add_entry k w) !! k')
  ↔ is_Some (cache w !! k') ∨ k' = k.
Proof.
  unfold has_key. case_bool_decide as Hk.
  - split; [auto|]. by intros [?| ->].
  - rewrite cache_add_entry. destruct (decide (k' = k)) as [->|Hne].
    + rewrite lookup_insert_eq. split; eauto.
    + rewrite lookup_insert_ne by done. split; [auto|]. by intros [?|?].
Qed.

Lemma update_cache_loop_counts (len : N) (fuel : nat) (w : widget) :
  counts w len → (N.to_nat len ≤ fuel)%nat →
  ∃ w', update_cache_loop fuel len 0 w = Done w' ∧ grown w w' ∧
    ∀ k, is_Some (cache w' !! k)
         ↔ is_Some (cache w !! k) ∨ ∃ j, (j < len)%N ∧ k = Num j.
Proof.
  intros Hc Hfuel.
  apply (update_cache_loop_rule len
    (λ i w1, grown w w1 ∧ (i ≤ len)%N ∧
       ∀ k, is_Some (cache w1 !! k)
            ↔ is_Some (cache w !! k) ∨ ∃ j, (j < i)%N ∧ k = Num j)).
  - intros i w1 Hi (Hg & _ & Hdom). simpl.
    rewrite (counts_loop_key w w1 len i Hc Hg Hi).
    split; [by apply grown_step|]. split; [lia|].
    intros k. rewrite has_key_step, Hdom. split.
    + intros [[?|(j & Hj & ->)]| ->]; [by left|right..].
      * exists j. split; [lia|done].
      * exists i. split; [lia|done].
    + intros [?|(j & Hj & ->)]; [by left; left|].
      destruct (decide (j = i)) as [->|Hne]; [by right|].
      left. right. exists j. split; [lia|done].
  - intros i w1 Hi (Hg & Hle & Hdom). split; [done|].
    by assert (i = len) as -> by lia.
  - by rewrite N.sub_0_r.
  - split; [apply grown_refl|]. split; [lia|].
    intros k. split; [by left|]. intros [?|(j & Hj & _)]; [done|lia].
Qed.

(** ** [update] *)

Lemma update_absent (current : index) (w : widget) :
  cache w !! current = None → update current w = Done w.
Proof.
  intros Hc. unfold update, has_key.
  rewrite bool_decide_eq_false_2; [done|]. by rewrite Hc; intros [? [=]].
Qed.

Lemma update_present (current : index) (w : widget) :
  is_Some (cache w !! current) →
  update current w
  = Done (set_cache (λ c, alter show current (hide <$> c)) w).
Proof. intros Hc. unfold update, has_key. by rewrite bool_decide_eq_true_2. Qed.

Lemma lookup_shown (current k : index) (c : gmap index element) :
  alter show current (hide <$> c) !! k = reveal current k <$> c !! k.
Proof.
  unfold reveal. rewrite lookup_alter.
  destruct (decide (current = k)) as [->|Hne]; rewrite lookup_fmap.
  - destruct (c !! k); simpl; [|done]. by rewrite decide_True.
  - destruct (c !! k); simpl; [|done]. by rewrite decide_False.
Qed.

Lemma update_returns (current : index) (w : widget) :
  ∃ w', update current w = Done w'.
Proof. unfold update. destruct (has_key current (cache w)); eauto. Qed.

Lemma update_present_visible (current : index) (w : widget) :
  at_most_one_visible (set_cache (λ c, alter show current (hide <$> c)) w).
Proof.
  intros k1 k2 e1 e2. simpl. rewrite !lookup_shown. unfold reveal.
  intros H1 H2.
  destruct (cache w !! k1) as [x1|], (cache w !! k2) as [x2|]; simplify_eq/=.
  do 2 case_decide; simpl; congruence.
Qed.

(** ** Every call advances the widget *)

Lemma advances_refl (w : widget) : advances w w.
Proof. by repeat split. Qed.

Lemma advances_trans (w1 w2 w3 : widget) :
  advances w1 w2 → advances w2 w3 → advances w1 w3.
Proof.
  intros (Hc1 & Hk1 & Hv1) (Hc2 & Hk2 & Hv2).
  split; [congruence|]. split; auto.
Qed.

(** A change that keeps the keys of the cache and what is shown. *)
Lemma advances_same_visibility (w w' : widget) :
  config w' = config w →
  (∀ k, el_visible <$> cache w' !! k = el_visible <$> cache w !! k) →
  advances w w'.
Proof.
  intros Hc Hv. split; [done|]. split.
  - intros k [el Hel]. specialize (Hv k). rewrite Hel in Hv.
    destruct (cache w' !! k); [eauto|done].
  - intros Hone k1 k2 e1 e2 H1 H2 Hv1 Hv2.
    pose proof (Hv k1) as Hk1. pose proof (Hv k2) as Hk2.
    rewrite H1 in Hk1. rewrite H2 in Hk2.
    destruct (cache w !! k1) as [x1|] eqn:Hx1; [|done].
    destruct (cache w !! k2) as [x2|] eqn:Hx2; [|done].
    simplify_eq/=. apply (Hone k1 k2 x1 x2); congruence.
Qed.

Lemma rest_config (w w' : widget) : rest w' = rest w → config w' = config w.
Proof. unfold rest, config. intros [=]. congruence. Qed.

Lemma grown_advances (w0 w : widget) : grown w0 w → advances w0 w.
Proof.
  intros Hg. split; [apply rest_config, Hg|]. split.
  - intros k [el Hel]. exists el. by eapply grown_cache_preserved.
  - intros Hone k1 k2 e1 e2 H1 H2 Hv1 Hv2.
    destruct Hg as [_ Hkeys].
    pose proof (Hkeys k1) as Hk1. pose proof (Hkeys k2) as Hk2.
    destruct (cache w0 !! k1) as [x1|] eqn:Hx1; cycle 1.
    { destruct Hk1 as [[? _]|[? _]]; simplify_eq/=. }
    destruct (cache w0 !! k2) as [x2|] eqn:Hx2; cycle 1.
    { destruct Hk2 as [[? _]|[? _]]; simplify_eq/=. }
    destruct Hk1 as [? _], Hk2 as [? _]. simplify_eq.
    by apply (Hone k1 k2 e1 e2).
Qed.

Lemma update_advances (current : index) (w : widget) :
  ∃ w', update current w = Done w' ∧ advances w w'.
Proof.
  destruct (cache w !! current) as [el|] eqn:Hc.
  - rewrite update_present by eauto. eexists. split; [done|].
    split; [done|]. split.
    + intros k [x Hx]. simpl. rewrite lookup_shown, Hx. eauto.
    + intros _. apply update_present_visible.
  - rewrite update_absent by done. eauto using advances_refl.
Qed.

Lemma populate_cache_advances (idx : index) (w : widget) :
  ∃ w', state_of (populate_cache idx w) = Some w' ∧ advances w w'.
Proof.
  unfold populate_cache.
  destruct (load_json w), (cache w !! idx) as [el|] eqn:Hel; simpl;
    try (by eauto using advances_refl).
  - eexists. split; [done|]. apply advances_same_visibility; [done|].
    intros k. simpl. destruct (decide (k = idx)) as [->|Hne].
    + by rewrite lookup_insert_eq, Hel.
    + by rewrite lookup_insert_ne.
  - eexists. split; [done|]. apply advances_same_visibility.
    + by destruct (embed w).
    + intros k. assert (∀ w1 : widget,
        cache (if embed w then set_frames (delete idx) w1 else w1) = cache w1)
        as -> by (by intros; destruct (embed w)).
      simpl. destruct (decide (k = idx)) as [->|Hne].
      * rewrite lookup_insert_eq, Hel. by destruct (frames w !! idx).
      * by rewrite lookup_insert_ne.
Qed.

Lemma and_then_advances (r : outcome) (k : widget → outcome) (w : widget) :
  (∃ w1, r = Done w1 ∧ advances w w1) →
  (∀ w1, ∃ w2, k w1 = Done w2 ∧ advances w1 w2) →
  ∃ w2, r >>> k = Done w2 ∧ advances w w2.
Proof.
  intros (w1 & -> & H1) Hk. destruct (Hk w1) as (w2 & Hw2 & H2).
  exists w2. split; [done|]. by eapply advances_trans.
Qed.

Lemma update_cache_advances (w : widget) :
  ∃ w', update_cache w = Done w' ∧ advances w w'.
Proof.
  destruct (update_cache_grown w) as (w' & Hw' & Hg).
  eauto using grown_advances.
Qed.

Lemma dynamic_update_advances (current : index) (w : widget) :
  ∃ w', dynamic_update current w = Done w' ∧ advances w w'.
Proof.
  unfold dynamic_update. destruct (has_key current (cache w)); simpl.
  - apply update_advances.
  - eexists. split; [done|]. by apply advances_same_visibility.
Qed.

Lemma callback_advances (current : index) (text : string) (w : widget) :
  ∃ w', callback current text w = Done w' ∧ advances w w'.
Proof.
  unfold callback. apply and_then_advances; [|apply update_advances].
  destruct (update_cache_advances
              (set_frames <[current := slice_1_m1 text]> w)) as (w1 & -> & H1).
  exists w1. split; [done|].
  eapply advances_trans; [|done]. by apply advances_same_visibility.
Qed.

Lemma init_slider_advances (init_val : jsval) (w : widget) :
  ∃ w', init_slider init_val w = Done w' ∧ advances w w'.
Proof.
  unfold init_slider. destruct (cached w).
  - apply and_then_advances; [apply update_cache_advances|apply update_advances].
  - apply dynamic_update_advances.
Qed.

Lemma set_frame_advances (dim_val : jsval) (dim_idx : nat) (w : widget) :
  ∃ w', state_of (set_frame dim_val dim_idx w) = Some w' ∧ advances w w'.
Proof.
  unfold set_frame.
  destruct (build_key _ _) as [key|]; simpl.
  - set (current := lookup_frame _ _). set (w1 := set_current_frame _ _).
    assert (advances w w1) as H1 by (by apply advances_same_visibility).
    assert (∃ w', (if cached w then update current w1
                   else dynamic_update current w1) = Done w'
                  ∧ advances w1 w') as (w' & -> & H2).
    { destruct (cached w); [apply update_advances|apply dynamic_update_advances]. }
    exists w'. split; [done|]. by eapply advances_trans.
  - eexists. split; [done|]. by apply advances_same_visibility.
Qed.

Lemma Done_state_of (r : outcome) (w w0 : widget) :
  (∃ w', r = Done w' ∧ advances w0 w') →
  ∃ w', state_of r = Some w' ∧ advances w0 w'.
Proof. intros (w' & -> & H). eauto. Qed.

Lemma invoke_advances (c : call) (w : widget) :
  ∃ w', state_of (invoke c w) = Some w' ∧ advances w w'.
Proof.
  destruct c; simpl.
  - apply (Done_state_of _ w), init_slider_advances.
  - apply populate_cache_advances.
  - apply (Done_state_of _ w), dynamic_update_advances.
  - apply (Done_state_of _ w), callback_advances.
  - apply (Done_state_of _ w), update_cache_advances.
  - apply (Done_state_of _ w), update_advances.
  - apply set_frame_advances.
Qed.

Lemma constructor_returns frames0 id0 slider_ids0 keyMap0 dim_vals notFound0
    load_json0 mode0 cached0 :
  let w0 := fresh frames0 id0 slider_ids0 keyMap0 dim_vals notFound0
              load_json0 mode0 cached0 in
  ∃ w, constructor frames0 id0 slider_ids0 keyMap0 dim_vals notFound0
         load_json0 mode0 cached0 = Done w ∧ advances w0 w.
Proof. apply init_slider_advances. Qed.

Lemma reachable_at_most_one_visible (w : widget) :
  reachable w → at_most_one_visible w.
Proof.
  induction 1 as [f i s km dv nf lj mo ca w Hw|c w w' _ IH Hw'].
  - destruct (constructor_returns f i s km dv nf lj mo ca) as (w1 & Hw1 & Ha).
    rewrite Hw in Hw1. simplify_eq. apply Ha.
    intros k1 k2 e1 e2. simpl. by rewrite lookup_empty.
  - destruct (invoke_advances c w) as (w1 & Hw1 & Ha).
    rewrite Hw' in Hw1. simplify_eq. by apply Ha.
Qed.

(** ** The cache only grows *)

Lemma advances_dom (w w' : widget) :
  advances w w' → dom (cache w) ⊆ dom (cache w').
Proof.
  intros (_ & Hk & _) k. rewrite !elem_of_dom. apply Hk.
Qed.

(** C4: the constructor starts from an empty cache and hands over to
    [init_slider]; whichever of [init_slider], [populate_cache],
    [dynamic_update], the response callback, [update_cache], [update]
    and [set_frame] is called in whatever state, also when the call
    throws, every key of the cache before the call is a key after it. *)
Theorem cache_never_shrinks :
  (∀ frames0 id0 slider_ids0 keyMap0 dim_vals notFound0 load_json0 mode0
     cached0,
     let w0 := fresh frames0 id0 slider_ids0 keyMap0 dim_vals notFound0
                 load_json0 mode0 cached0 in
     cache w0 = ∅
     ∧ constructor frames0 id0 slider_ids0 keyMap0 dim_vals notFound0
         load_json0 mode0 cached0
       = init_slider (array_get dim_vals 0) w0)
  ∧ (∀ (c : call) (w : widget),
       ∃ w', state_of (invoke c w) = Some w'
             ∧ dom (cache w) ⊆ dom (cache w')).
Proof.
  split; [done|]. intros c w.
  destruct (invoke_advances c w) as (w' & Hw' & Ha).
  exists w'. split; [done|]. by apply advances_dom.
Qed.

(** ** The key map *)

Lemma advances_keyMap (w w' : widget) : advances w w' → keyMap w' = keyMap w.
Proof. intros (Hc & _). unfold config in Hc. by injection Hc. Qed.

(** C5, as amended: the key map is handed to the constructor complete
    and stored as given, and no method call or callback adds, changes or
    removes an entry of it. *)
Theorem keyMap_fixed :
  (∀ frames0 id0 slider_ids0 keyMap0 dim_vals notFound0 load_json0 mode0
     cached0,
     ∃ w, constructor frames0 id0 slider_ids0 keyMap0 dim_vals notFound0
            load_json0 mode0 cached0 = Done w
          ∧ keyMap w = keyMap0)
  ∧ (∀ (c : call) (w : widget),
       ∃ w', state_of (invoke c w) = Some w' ∧ keyMap w' = keyMap w).
Proof.
  split.
  - intros f i s km dv nf lj mo ca.
    destruct (constructor_returns f i s km dv nf lj mo ca) as (w & Hw & Ha).
    exists w. split; [done|]. by rewrite (advances_keyMap _ _ Ha).
  - intros c w. destruct (invoke_advances c w) as (w' & Hw' & Ha).
    exists w'. split; [done|]. by apply advances_keyMap.
Qed.

(** ** What [update] shows *)

(** C8: [update(current)] returns; with [current] outside the cache it
    leaves the widget as it was; with [current] in the cache every entry
    is hidden except the one for [current], which is shown; and at most
    one cached frame is visible afterwards, in the second case whatever
    the state before, in the first in every state a widget reaches. *)
Theorem update_shows_only_current (current : index) (w : widget) :
  ∃ w', update current w = Done w'
    ∧ (cache w !! current = None → w' = w)
    ∧ (is_Some (cache w !! current) →
         frames w' = frames w ∧ rest w' = rest w
         ∧ ∀ k, cache w' !! k = reveal current k <$> cache w !! k)
    ∧ (is_Some (cache w !! current) ∨ reachable w → at_most_one_visible w').
Proof.
  destruct (cache w !! current) as [el|] eqn:Hc.
  - rewrite update_present by eauto. eexists. split; [done|].
    split; [done|]. split.
    + intros _. repeat split. intros k. apply lookup_shown.
    + intros _. apply update_present_visible.
  - rewrite update_absent by done. exists w. split; [done|].
    split; [done|]. split; [by intros [? [=]]|].
    intros [[? [=]]|Hr]. by apply reachable_at_most_one_visible.
Qed.

(** ** Running [update_cache] again *)

Lemma grown_frames_between (w0 w1 w2 : widget) :
  grown w0 w1 → grown w1 w2 → frames w2 = frames w0 → frames w1 = frames w0.
Proof.
  intros H01 H12 Heq. apply map_eq. intros k.
  destruct (frames w0 !! k) as [x|] eqn:Hx.
  - assert (is_Some (frames w2 !! k)) as Hs by (rewrite Heq, Hx; eauto).
    rewrite <- (grown_frames_sub w1 w2 k H12 Hs). by rewrite Heq.
  - destruct (frames w1 !! k) as [y|] eqn:Hy; [|done].
    rewrite <- Hx, <- (grown_frames_sub w0 w1 k H01); [done|].
    rewrite Hy; eauto.
Qed.

Lemma loop_key_ext (i : N) (w w2 : widget) :
  rest w2 = rest w → frames w2 = frames w → loop_key i w2 = loop_key i w.
Proof.
  intros (_ & _ & Hl & _)%rest_fields Hf. unfold loop_key. by rewrite Hl, Hf.
Qed.

(** A second run over the same frames finds every key the first run
    handled in the cache, and changes nothing. *)
Lemma update_cache_loop_rerun (len : N) (fuel : nat) :
  ∀ (i : N) (w w' w2 : widget),
    (N.to_nat (len - i) ≤ fuel)%nat →
    update_cache_loop fuel len i w = Done w' →
    frames w' = frames w →
    rest w2 = rest w → frames w2 = frames w →
    (∀ k, is_Some (cache w' !! k) → is_Some (cache w2 !! k)) →
    update_cache_loop fuel len i w2 = Done w2.
Proof.
  induction fuel as [|fuel IH]; intros i w w' w2 Hfuel Hrun Hfr Hrest Hfr2 Hsub;
    simpl in *.
  - by destruct (i <? len)%N.
  - destruct (N.ltb_spec i len) as [Hlt|Hge]; [|done].
    rewrite loop_body_eq in *. simpl in *.
    rewrite (loop_key_ext i w w2 Hrest Hfr2).
    set (k := loop_key i w) in *.
    set (w1 := if has_key k (cache w) then w else add_entry k w) in *.
    assert (grown w w1) as Hg1 by apply grown_step, grown_refl.
    assert (is_Some (cache w1 !! k)) as Hk1 by (apply has_key_step; by right).
    assert (grown w1 w') as Hg2.
    { destruct k as [n|] eqn:Hk.
      - destruct (update_cache_loop_grown len fuel (n + 1) w1 w1)
          as (w'' & Hw'' & Hg); [|apply grown_refl|congruence].
        apply loop_key_ge in Hk. lia.
      - simplify_eq. apply grown_refl. }
    assert (has_key k (cache w2) = true) as ->.
    { apply bool_decide_eq_true_2, Hsub.
      destruct Hk1 as [el Hel]. exists el. by eapply grown_cache_preserved. }
    destruct k as [n|] eqn:Hk; [|done].
    pose proof (grown_frames_between w w1 w' Hg1 Hg2 Hfr) as Hfr1.
    apply (IH (n + 1)%N w1 w' w2); try done; try congruence.
    + apply loop_key_ge in Hk. lia.
    + rewrite Hrest. symmetry. apply Hg1.
Qed.

(** C9: [update_cache] returns; an entry that is in the cache when it
    is called is in the cache unchanged when it returns; the key map is
    not touched, nor are the frames unless [embed] is set; and when the
    frames are as before the call, calling [update_cache] a second time
    returns with the widget, its cache included, exactly as the first
    call left it. *)
Theorem update_cache_idempotent (w : widget) :
  ∃ w', update_cache w = Done w'
    ∧ (∀ k el, cache w !! k = Some el → cache w' !! k = Some el)
    ∧ keyMap w' = keyMap w
    ∧ (embed w = false → frames w' = frames w)
    ∧ (frames w' = frames w → update_cache w' = Done w').
Proof.
  destruct (update_cache_grown w) as (w' & Hw' & Hg).
  exists w'. split; [done|]. split; [|split; [|split]].
  - intros k el. by apply grown_cache_preserved.
  - by apply advances_keyMap, grown_advances.
  - by apply grown_frames.
  - intros Hfr. unfold update_cache in *.
    assert (frame_len w' = frame_len w) as ->.
    { unfold frame_len. rewrite Hfr.
      pose proof (rest_fields _ _ (proj1 Hg)) as (_ & _ & -> & _ & -> & _).
      done. }
    apply (update_cache_loop_rerun _ _ 0%N w w' w'); try done; [lia|apply Hg].
Qed.

(** ** Requests to the kernel and their responses *)

Lemma update_keeps (current : index) (w : widget) :
  ∃ w', update current w = Done w' ∧ frames w' = frames w ∧ rest w' = rest w
    ∧ ∀ k, cache w' !! k
           = (if has_key current (cache w) then reveal current k else (λ el, el))
             <$> cache w !! k.
Proof.
  unfold update. destruct (has_key current (cache w)); eexists; split; try done.
  - repeat split. intros k. apply lookup_shown.
  - repeat split. intros k. by rewrite option_fmap_id.
Qed.

(** [dynamic_update(current)] with [current] in the cache is
    [update(current)] and the kernel is sent nothing.  With [current]
    outside the cache it returns having sent the kernel one execute
    command, that of [update_request], with the callback for [current]
    attached, and nothing else has changed: the frame is neither cached
    nor shown by the call.  The callback, when a response runs it,
    sends the kernel nothing, and where it leaves [current] in the
    cache that entry is shown. *)
Theorem dynamic_update_cases (current : index) (w : widget) :
  (is_Some (cache w !! current) →
     dynamic_update current w = update current w
     ∧ ∃ w', update current w = Done w' ∧ kernel w' = kernel w)
  ∧ (cache w !! current = None →
       ∃ w', dynamic_update current w = Done w'
         ∧ kernel w' = (kernel w ++ [update_request w current])%list
         ∧ cache w' = cache w ∧ frames w' = frames w
         ∧ config w' = config w ∧ current_frame w' = current_frame w
         ∧ current_vals w' = current_vals w)
  ∧ (∀ text, ∃ w', callback current text w = Done w'
       ∧ kernel w' = kernel w
       ∧ ∀ el, cache w' !! current = Some el → el_visible el = true).
Proof.
  split; [|split].
  - intros Hc. unfold dynamic_update, has_key.
    rewrite bool_decide_eq_true_2 by done. split; [done|].
    destruct (update_keeps current w) as (w' & Hw' & _ & Hr & _).
    exists w'. split; [done|]. by apply rest_fields in Hr as (_&_&_&_&_&?&_).
  - intros Hc. unfold dynamic_update, has_key.
    rewrite bool_decide_eq_false_2 by (rewrite Hc; by intros [? [=]]).
    simpl. eexists. by repeat split.
  - intros text. unfold callback.
    destruct (update_cache_grown
                (set_frames <[current := slice_1_m1 text]> w))
      as (w1 & -> & Hg). simpl.
    destruct (update_keeps current w1) as (w' & Hw' & _ & Hr & Hk).
    exists w'. split; [done|]. split.
    + apply rest_fields in Hr as (_&_&_&_&_&->&_).
      by destruct Hg as [(_&_&_&_&_&->&_)%rest_fields _].
    + intros el. rewrite Hk. unfold has_key. case_bool_decide as Hin.
      * destruct (cache w1 !! current); [|done]. simpl. intros [= <-].
        unfold reveal. by rewrite decide_True.
      * intros Hel. destruct Hin. destruct (cache w1 !! current); [eauto|done].
Qed.

(** C2, at the response for frame 3 once frames 0 and 2 have been
    fetched: [dynamic_update(3)], the call [set_frame(3, 0)] makes, finds
    frame 3 outside the cache and sends the one request.  Its callback
    then stores the frame, but the loop of [update_cache], counting on
    from key 2, has left before it comes to key 3: the frame is not
    cached, [update(3)] shows nothing, and frame 2 stays the one
    shown. *)
Theorem callback_misses_frame_after_gap :
  ∃ w w1 w2,
    gap_session = Done w
    ∧ obj_keys (frames w) = [Num 0; Num 2]
    ∧ cache w !! Num 3 = None
    ∧ dynamic_update (Num 3) w = Done w1
    ∧ kernel w1 = (kernel w ++ [update_request w (Num 3)])%list
    ∧ callback (Num 3) "'<p>d</p>'" w1 = Done w2
    ∧ frames w2 !! Num 3 = Some "<p>d</p>"
    ∧ cache w2 !! Num 3 = None
    ∧ cache w2 = cache w
    ∧ el_visible <$> cache w2 !! Num 2 = Some true
    ∧ el_visible <$> cache w2 !! Num 0 = Some false
    ∧ set_frame (VNum (num 3)) 0 w
      = dynamic_update (Num 3)
          (set_current_frame (Num 3)
             (set_current_vals (λ _, [VNum (num 3)]) w)).
Proof.
  lazymatch eval vm_compute in gap_session with
  | Done ?w => pose (w0 := w)
  end.
  lazymatch eval vm_compute in (dynamic_update (Num 3) w0) with
  | Done ?w => pose (w1 := w)
  end.
  lazymatch eval vm_compute in (callback (Num 3) "'<p>d</p>'" w1) with
  | Done ?w => pose (w2 := w)
  end.
  exists w0, w1, w2. repeat (split; [vm_compute; reflexivity|]).
  vm_compute; reflexivity.
Qed.

(** C7, as amended: once the cache holds an entry for an index, a
    response for that index leaves the entry as it is, only shown, and
    overwrites just [frames[current]]; a response that finds no entry
    and whose [update_cache] creates one fills it from this response.
    So of several responses for one index it is the first to create the
    entry that fixes the cached frame, and that frame is the one shown. *)
Theorem callback_first_response_wins (current : index) (text : string)
    (w : widget) :
  ∃ w', callback current text w = Done w'
    ∧ (∀ el, cache w !! current = Some el →
         cache w' !! current = Some (show el)
         ∧ frames w' !! current = Some (slice_1_m1 text))
    ∧ (cache w !! current = None →
         ∀ el', cache w' !! current = Some el' →
           el_visible el' = true
           ∧ el_content el'
             = if load_json w
               then Remote (server +:+ "/" +:+ fig_id w +:+ "/"
                            +:+ index_to_string current)
               else Markup (slice_1_m1 text)).
Proof.
  unfold callback.
  set (w0 := set_frames <[current := slice_1_m1 text]> w).
  destruct (update_cache_grown w0) as (w1 & -> & Hg). simpl.
  destruct (update_keeps current w1) as (w' & Hw' & Hf & _ & Hk).
  exists w'. split; [done|].
  destruct Hg as [_ Hkeys]. specialize (Hkeys current).
  change (cache w0) with (cache w) in Hkeys. split.
  - intros el Hel. rewrite Hel in Hkeys. destruct Hkeys as [Hc Hfr].
    rewrite Hk, Hf, Hfr. unfold has_key.
    rewrite bool_decide_eq_true_2 by (rewrite Hc; eauto).
    rewrite Hc. simpl. unfold reveal. rewrite decide_True by done.
    split; [done|]. apply lookup_insert_eq.
  - intros Hnone el'. rewrite Hnone in Hkeys. rewrite Hk.
    destruct Hkeys as [[Hc _]|[Hc _]]; rewrite Hc; [done|].
    unfold has_key. rewrite bool_decide_eq_true_2 by (rewrite Hc; eauto).
    simpl. intros [= <-]. unfold reveal. rewrite decide_True by done.
    split; [done|]. simpl.
    change (load_json w0) with (load_json w). destruct (load_json w); [done|].
    change (frames w0) with (<[current := slice_1_m1 text]> (frames w)).
    by rewrite lookup_insert_eq.
Qed.

(** ** Construction *)

Lemma update_cache_counts (w : widget) :
  counts w (frame_len w) →
  ∃ w', update_cache w = Done w' ∧ grown w w' ∧
    ∀ k, is_Some (cache w' !! k)
         ↔ is_Some (cache w !! k) ∨ ∃ j, (j < frame_len w)%N ∧ k = Num j.
Proof. intros Hc. by apply update_cache_loop_counts. Qed.

(** C6, as amended: the constructor starts from an empty cache and
    calls [init_slider] once.  Not cached, this sends the kernel the one
    request for frame 0 and the cache stays empty.  Cached, with
    [load_json] or with frames numbered from 0 without gaps, the call
    returns with exactly the entries [0 .. frame_len - 1] in the cache,
    each as [update_cache] creates and populates it, all hidden but
    frame 0, which is shown if there is one. *)
Theorem constructor_init frames0 id0 slider_ids0 keyMap0 dim_vals notFound0
    load_json0 mode0 cached0 :
  let w0 := fresh frames0 id0 slider_ids0 keyMap0 dim_vals notFound0
              load_json0 mode0 cached0 in
  let new := constructor frames0 id0 slider_ids0 keyMap0 dim_vals notFound0
               load_json0 mode0 cached0 in
  cache w0 = ∅
  ∧ new = init_slider (array_get dim_vals 0) w0
  ∧ (cached0 = false →
       ∃ w, new = Done w ∧ cache w = ∅ ∧ frames w = frames0
            ∧ kernel w = [update_request w0 (Num 0)])
  ∧ (cached0 = true →
     load_json0 = true ∨ dense frames0 (size frames0) →
       ∃ w, new = Done w ∧ kernel w = [] ∧ frames w = frames0
         ∧ ∀ k, cache w !! k
                = match k with
                  | Num j =>
                      if (j <? frame_len w0)%N
                      then Some (reveal (Num 0) k (filled w0 k))
                      else None
                  | Undefined => None
                  end).
Proof.
  intros w0 new. split; [done|]. split; [done|]. split.
  - intros ->. by eexists.
  - intros -> Hd. subst new. unfold constructor, init_slider. simpl.
    fold w0.
    assert (counts w0 (frame_len w0)) as Hc.
    { destruct Hd as [->|Hd]; [by left|]. destruct load_json0; [by left|].
      right. split; [done|]. unfold frame_len. simpl. by rewrite Nat2N.id. }
    destruct (update_cache_counts w0 Hc) as (w1 & -> & Hg & Hdom). simpl.
    destruct (update_keeps (Num 0) w1) as (w & Hw & Hf & Hr & Hk).
    exists w. split; [done|]. split; [|split].
    + apply rest_fields in Hr as (_&_&_&_&_&->&_).
      by destruct Hg as [(_&_&_&_&_&->&_)%rest_fields _].
    + rewrite Hf. by apply (grown_frames w0 w1).
    + assert (∀ k, (∃ j, (j < frame_len w0)%N ∧ k = Num j) →
                   cache w1 !! k = Some (filled w0 k)) as Hin.
      { intros k Hj. destruct Hg as [_ Hkeys]. specialize (Hkeys k).
        change (cache w0) with (∅ : gmap index element) in *.
        rewrite lookup_empty in Hkeys.
        destruct Hkeys as [[Hn _]|[? _]]; [|done].
        destruct (proj2 (Hdom k)) as [? Hs]; [by right|congruence]. }
      assert (∀ k, ¬ (∃ j, (j < frame_len w0)%N ∧ k = Num j) →
                   cache w1 !! k = None) as Hout.
      { intros k Hj. apply eq_None_not_Some. intros Hs.
        apply Hdom in Hs as [Hs|Hs]; [|done].
        change (cache w0) with (∅ : gmap index element) in *.
        rewrite lookup_empty in Hs. by destruct Hs. }
      intros k. rewrite Hk. destruct k as [j|].
      * destruct (N.ltb_spec j (frame_len w0)) as [Hlt|Hge].
        -- rewrite Hin by eauto. simpl. f_equal.
           unfold has_key. rewrite bool_decide_eq_true_2; [done|].
           rewrite Hin; [eauto|]. exists 0%N. split; [lia|done].
        -- rewrite Hout; [done|]. intros (j' & Hj' & [= ->]). lia.
      * rewrite Hout; [done|]. by intros (j & _ & ?).
Qed.

(** With [load_json], or with frames numbered from 0 without gaps once
    the response is stored, the callback for a frame below [frame_len]
    leaves that frame in the cache, shown. *)
Lemma callback_caches_frame (j : N) (text : string) (w : widget) :
  let w0 := set_frames <[Num j := slice_1_m1 text]> w in
  counts w0 (frame_len w0) → (j < frame_len w0)%N →
  ∃ w' el, callback (Num j) text w = Done w'
    ∧ cache w' !! Num j = Some el ∧ el_visible el = true.
Proof.
  intros w0 Hc Hj. unfold callback. fold w0.
  destruct (update_cache_counts w0 Hc) as (w1 & -> & _ & Hdom). simpl.
  destruct (update_keeps (Num j) w1) as (w' & Hw' & _ & _ & Hk).
  assert (is_Some (cache w1 !! Num j)) as [el Hel] by (apply Hdom; eauto).
  exists w', (show el). split; [done|]. split; [|done].
  rewrite Hk, Hel. unfold has_key.
  rewrite bool_decide_eq_true_2 by (rewrite Hel; eauto).
  simpl. unfold reveal. by rewrite decide_True.
Qed.

(** ** The key [set_frame] builds *)

Lemma append_cons (x : ascii) (a b : string) :
  String x a +:+ b = String x (a +:+ b).
Proof. reflexivity. Qed.

Lemma append_assoc (a b c : string) : (a +:+ b) +:+ c = a +:+ b +:+ c.
Proof.
  induction a as [|x a IH]; [done|]. by rewrite !append_cons, IH.
Qed.

Lemma append_nil_r (a : string) : a +:+ "" = a.
Proof. induction a as [|x a IH]; [done|]. by rewrite append_cons, IH. Qed.

Lemma key_loop_tail (vals : list jsval) (len : nat) :
  ∀ (todo : nat) (key : string), (todo ≤ len)%nat →
    key_loop vals len todo key
    = (λ items, key +:+ key_tail len (len - todo) items)
      <$> mapM stringify (array_get vals <$> seq (len - todo) todo).
Proof.
  induction todo as [|todo IH]; intros key Hle; simpl.
  - by rewrite append_nil_r.
  - destruct (stringify (array_get vals (len - S todo))) as [val|]; [|done].
    simpl. rewrite IH by lia.
    assert (S (len - S todo) = len - todo)%nat as Hi by lia.
    rewrite Hi.
    destruct (mapM stringify _) as [items|]; [|done]. simpl. f_equal.
    unfold quoted. rewrite Hi.
    destruct (negb _); [|destruct (len =? 1)%nat];
      by rewrite ?append_assoc, ?append_nil_r.
Qed.

Lemma key_tail_join (len : nat) (items : list string) :
  ∀ i, items ≠ [] → (i + length items = len)%nat →
    key_tail len i items
    = join_comma (quoted <$> items) +:+ (if (len =? 1)%nat then "," else "").
Proof.
  induction items as [|x items IH]; intros i Hne Hlen; [done|].
  destruct items as [|y items].
  - simpl in *. replace (i =? len - 1)%nat with true
      by (symmetry; apply Nat.eqb_eq; lia).
    simpl. by rewrite append_nil_r.
  - assert ((i =? len - 1)%nat = false) as Hi
      by (apply Nat.eqb_neq; simpl in *; lia).
    change (key_tail len i (x :: y :: items))
      with (quoted x +:+ (if negb (i =? len - 1)%nat then ", "
                          else if (len =? 1)%nat then "," else "")
            +:+ key_tail len (S i) (y :: items)).
    rewrite Hi, IH by (simpl in *; done || lia).
    simpl. by rewrite ?append_assoc.
Qed.

(** The key as a tuple of the stringified slider values; no key, but a
    TypeError, as soon as one of them cannot be stringified. *)
Lemma build_key_tuple (vals : list jsval) (len : nat) :
  build_key vals len = tuple_key <$> mapM stringify (slider_vals vals len).
Proof.
  unfold build_key, slider_vals. rewrite key_loop_tail by done.
  rewrite Nat.sub_diag.
  destruct (mapM stringify _) as [items|] eqn:Hitems; [|done].
  simpl. f_equal. apply length_mapM in Hitems.
  rewrite length_fmap, length_seq in Hitems. unfold tuple_key.
  destruct items as [|x items].
  - simpl in *. by subst len.
  - rewrite key_tail_join by (done || simpl in *; lia).
    rewrite <- Hitems. by rewrite ?append_assoc.
Qed.

(** With no string among the slider values that converts to a number,
    the key is built, from the values stringified one by one. *)
Lemma build_key_total (vals : list jsval) (len : nat) :
  Forall (λ v, ∀ s, v = VStr s → str_isNaN s = true) (slider_vals vals len) →
  ∃ items,
    build_key vals len = Some (tuple_key items)
    ∧ Forall2 (λ v item, stringify v = Some item) (slider_vals vals len) items.
Proof.
  intros Hok. rewrite build_key_tuple.
  destruct (mapM stringify (slider_vals vals len)) as [items|] eqn:Hitems.
  - exists items. split; [done|]. by apply mapM_Some_1.
  - apply mapM_None_1, Exists_exists in Hitems as (v & Hv & Hnone).
    rewrite Forall_forall in Hok. specialize (Hok v Hv).
    destruct v as [x|s|]; simpl in Hnone.
    + by destruct (is_nan x).
    + by rewrite (Hok s eq_refl) in Hnone.
    + done.
Qed.

(** ** [set_frame] *)

Lemma array_set_lookup (i : nat) (v : jsval) (l : list jsval) :
  array_set i v l !! i = Some v.
Proof.
  unfold array_set. destruct (Nat.ltb_spec i (length l)) as [Hlt|Hge].
  - by apply list_lookup_insert_eq.
  - rewrite lookup_app_r by done.
    rewrite lookup_app_r by (rewrite length_replicate; lia).
    rewrite length_replicate.
    by replace (i - length l - (i - length l))%nat with 0%nat by lia.
Qed.

Lemma array_set_lookup_ne (i j : nat) (v : jsval) (l : list jsval) :
  j ≠ i → array_get (array_set i v l) j = array_get l j.
Proof.
  intros Hne. unfold array_get, array_set.
  destruct (Nat.ltb_spec i (length l)) as [Hlt|Hge].
  - by rewrite list_lookup_insert_ne.
  - destruct (decide (j < length l)%nat) as [Hj|Hj].
    + by rewrite lookup_app_l.
    + rewrite lookup_app_r by lia. rewrite (lookup_ge_None_2 l) by lia.
      destruct (decide (j < i)%nat) as [Hji|Hji].
      * rewrite lookup_app_l by (rewrite length_replicate; lia).
        rewrite lookup_replicate_2; [done|lia].
      * rewrite lookup_ge_None_2; [done|].
        rewrite length_app, length_replicate. simpl. lia.
Qed.

(** The steps of [set_frame] once the key is built. *)
Lemma set_frame_steps (dim_val : jsval) (dim_idx : nat) (w : widget)
    (key : string) :
  build_key (array_set dim_idx dim_val (current_vals w))
    (length (slider_ids w)) = Some key →
  let current := lookup_frame w key in
  let w1 := set_current_frame current
              (set_current_vals (array_set dim_idx dim_val) w) in
  set_frame dim_val dim_idx w
  = if cached w then update current w1 else dynamic_update current w1.
Proof. intros Hkey. unfold set_frame. simpl. by rewrite Hkey. Qed.

Lemma set_frame_throws (dim_val : jsval) (dim_idx : nat) (w : widget) :
  build_key (array_set dim_idx dim_val (current_vals w))
    (length (slider_ids w)) = None →
  set_frame dim_val dim_idx w
  = TypeError (set_current_vals (array_set dim_idx dim_val) w).
Proof. intros Hkey. unfold set_frame. simpl. by rewrite Hkey. Qed.

Lemma dynamic_update_keeps (current : index) (w : widget) :
  ∃ w', dynamic_update current w = Done w'
    ∧ current_vals w' = current_vals w ∧ current_frame w' = current_frame w
    ∧ frames w' = frames w.
Proof.
  unfold dynamic_update. destruct (has_key current (cache w)); simpl.
  - destruct (update_keeps current w) as (w' & Hw' & Hf & Hr & _).
    exists w'. unfold rest in Hr. injection Hr as ?????????????. done.
  - by eexists.
Qed.

(** ** Where [undefined] is no cache key *)

Lemma obj_keys_NoDup {V} (obj : gmap index V) : NoDup (obj_keys obj).
Proof.
  unfold obj_keys. apply NoDup_app. split; [|split].
  - apply NoDup_fmap_2; [by intros ?? [=]|apply sorted_keys_NoDup].
  - intros k (n & -> & _)%list_elem_of_fmap Hu.
    destruct (has_key Undefined obj);
      [by apply list_elem_of_singleton in Hu|by apply elem_of_nil in Hu].
  - destruct (has_key Undefined obj); [apply NoDup_singleton|constructor].
Qed.

Lemma obj_keys_length {V} (obj : gmap index V) :
  length (obj_keys obj) = size obj.
Proof.
  rewrite <- size_dom.
  change (size (dom obj)) with (length (elements (dom obj))).
  apply Permutation_length, NoDup_Permutation.
  - apply obj_keys_NoDup.
  - apply NoDup_elements.
  - intros k. by rewrite elem_of_obj_keys, elem_of_elements, elem_of_dom.
Qed.

(** Without [embed] every key [update_cache] adds to the cache is a
    frame number below [frame_len] or a key of [frames]. *)
Lemma update_cache_origin (w : widget) :
  embed w = false →
  ∃ w', update_cache w = Done w' ∧ grown w w' ∧
    ∀ k, is_Some (cache w' !! k) →
      is_Some (cache w !! k)
      ∨ (if load_json w then ∃ j, k = Num j else is_Some (frames w !! k)).
Proof.
  intros He.
  apply (update_cache_loop_rule (frame_len w)
    (λ _ w1, grown w w1 ∧
       ∀ k, is_Some (cache w1 !! k) →
         is_Some (cache w !! k)
         ∨ (if load_json w then ∃ j, k = Num j else is_Some (frames w !! k)))).
  - intros i w1 Hi [Hg Hor]. simpl.
    assert (if load_json w then ∃ j, loop_key i w1 = Num j
            else is_Some (frames w !! loop_key i w1)) as Hkey.
    { unfold loop_key.
      pose proof (rest_fields _ _ (proj1 Hg)) as (_ & _ & -> & _).
      destruct (load_json w) eqn:Hl; [eauto|].
      rewrite (grown_frames w w1 Hg He).
      destruct (obj_keys (frames w) !! N.to_nat i) as [k|] eqn:Hk.
      - by apply obj_keys_lookup_Some in Hk.
      - apply lookup_ge_None_1 in Hk. rewrite obj_keys_length in Hk.
        unfold frame_len in Hi. rewrite Hl in Hi. lia. }
    assert (grown w (if has_key (loop_key i w1) (cache w1) then w1
                     else add_entry (loop_key i w1) w1)
            ∧ ∀ k, is_Some (cache (if has_key (loop_key i w1) (cache w1)
                                   then w1 else add_entry (loop_key i w1) w1)
                            !! k) →
                is_Some (cache w !! k)
                ∨ (if load_json w then ∃ j, k = Num j
                   else is_Some (frames w !! k))) as Hnext.
    { split; [by apply grown_step|].
      intros k [Hk| ->]%has_key_step; [by apply Hor|by right]. }
    by destruct (loop_key i w1).
  - done.
  - lia.
  - split; [apply grown_refl|]. by left.
Qed.

Lemma slider_driven_no_undefined (w : widget) :
  slider_driven w → cached w = true ∧ cache w !! Undefined = None.
Proof.
  induction 1 as [f i s km dv nf lj mo w Hf Hw|v i w w' _ [Hc Hu] Hw'].
  - unfold constructor, init_slider in Hw. simpl in Hw.
    set (w0 := fresh f i s km dv nf lj mo true) in *.
    destruct (update_cache_origin w0 eq_refl) as (w1 & Hw1 & Hg & Hor).
    rewrite Hw1 in Hw. simpl in Hw.
    destruct (update_keeps (Num 0) w1) as (w2 & Hw2 & _ & Hr & Hk).
    rewrite Hw2 in Hw. assert (w2 = w) as -> by congruence. split.
    + apply rest_fields in Hr as (_&_&_&_&_&_&->).
      by destruct Hg as [(_&_&_&_&_&_&->)%rest_fields _].
    + rewrite Hk. destruct (cache w1 !! Undefined) as [el|] eqn:Hel; [|done].
      destruct (Hor Undefined) as [Hs|Hs]; [eauto|..].
      * change (cache w0) with (∅ : gmap index element) in Hs.
        rewrite lookup_empty in Hs. by destruct Hs.
      * change (load_json w0) with lj in Hs. change (frames w0) with f in Hs.
        destruct lj; [by destruct Hs|]. rewrite Hf in Hs. by destruct Hs.
  - unfold set_frame in Hw'. simpl in Hw'.
    destruct (build_key _ _) as [key|]; simpl in Hw'; [|by simplify_eq].
    rewrite Hc in Hw'.
    set (current := lookup_frame _ _) in *. set (w1 := set_current_frame _ _) in *.
    destruct (update_keeps current w1) as (w2 & Hw2 & _ & Hr & Hk).
    rewrite Hw2 in Hw'. assert (w2 = w') as -> by (simpl in Hw'; congruence).
    split.
    + by apply rest_fields in Hr as (_&_&_&_&_&_&->).
    + rewrite Hk. change (cache w1) with (cache w). by rewrite Hu.
Qed.

(** C10: when the key [set_frame] builds is not in the key map, the
    call returns with [dim_val] stored at [dim_idx] of [current_vals]
    and [current_frame] undefined.  In cached mode, [undefined] being no
    key of the cache, as it never is for a widget driven by its sliders,
    the cache is then exactly as before, every frame shown or hidden as
    it was, and nothing is sent to the kernel. *)
Theorem set_frame_unknown_key (dim_val : jsval) (dim_idx : nat)
    (w : widget) (key : string) :
  build_key (array_set dim_idx dim_val (current_vals w))
    (length (slider_ids w)) = Some key →
  keyMap w !! key = None →
  ∃ w', set_frame dim_val dim_idx w = Done w'
    ∧ current_vals w' !! dim_idx = Some dim_val
    ∧ current_frame w' = Undefined
    ∧ (cached w = true →
       cache w !! Undefined = None ∨ slider_driven w →
         cache w' = cache w ∧ frames w' = frames w ∧ kernel w' = kernel w).
Proof.
  intros Hkey Hmiss. rewrite (set_frame_steps _ _ _ key Hkey).
  unfold lookup_frame. simpl. rewrite Hmiss.
  set (w1 := set_current_frame Undefined _).
  destruct (cached w) eqn:Hc.
  - destruct (update_keeps Undefined w1) as (w' & Hw' & Hf & Hr & Hk).
    exists w'. split; [done|].
    unfold rest in Hr. injection Hr as ?????????????.
    split; [|split].
    + replace (current_vals w') with (current_vals w1) by done.
      apply array_set_lookup.
    + by replace (current_frame w') with (current_frame w1) by done.
    + intros _ Hu.
      assert (cache w !! Undefined = None) as Hnone.
      { destruct Hu as [?|Hd]; [done|]. by apply slider_driven_no_undefined. }
      rewrite (update_absent Undefined w1 Hnone) in Hw'. by simplify_eq.
  - destruct (dynamic_update_keeps Undefined w1) as (w' & Hw' & Hv & Hcf & _).
    exists w'. split; [done|]. split; [|split; [|done]].
    + rewrite Hv. apply array_set_lookup.
    + by rewrite Hcf.
Qed.

(** ** Dropdown values that read as numbers *)

(** C1, at the dropdown value ["2015"]: the key map holds frame 1 for
    the key of that value, but [set_frame] stores the value and is then
    cut short by the TypeError of ["2015".toFixed]; no key is built,
    [current_frame] stays 0 and frame 0 stays the one shown. *)
Theorem set_frame_numeric_string_throws :
  ∃ w, year_widget = Done w
    ∧ keyMap w !! "('2015',)" = Some 1%N
    ∧ set_frame (VStr "2015") 0 w
      = TypeError (set_current_vals (λ _, [VStr "2015"]) w)
    ∧ current_frame w = Num 0
    ∧ el_visible <$> cache w !! Num 0 = Some true
    ∧ el_visible <$> cache w !! Num 1 = Some false.
Proof.
  eexists. split; [vm_compute; reflexivity|]. vm_compute. repeat split.
Qed.

(** C3, at the same value: the string ["2015"] passes the [isNaN] test
    as a number and has no [toFixed], so no key comes out, where a
    string that is not a number is used as it is. *)
Theorem build_key_numeric_string :
  str_isNaN "2015" = false
  ∧ stringify (VStr "2015") = None
  ∧ build_key [VStr "2015"] 1 = None
  ∧ build_key [VStr "Monday"] 1 = Some "('Monday',)".
Proof. vm_compute. repeat split. Qed.

(** * Further properties of the methods *)

(** ** [update_cache] and what is displayed *)

(** [update_cache] changes nothing but [cache] and [frames], and the
    frames that are shown when it returns are those shown before: what
    it adds to the cache it adds hidden. *)
Theorem update_cache_keeps_display (w : widget) :
  ∃ w', update_cache w = Done w' ∧ rest w' = rest w
    ∧ ∀ k, el_visible <$> cache w' !! k = Some true
           ↔ el_visible <$> cache w !! k = Some true.
Proof.
  destruct (update_cache_grown w) as (w' & Hw' & Hrest & Hkeys).
  exists w'. split; [done|]. split; [done|].
  intros k. specialize (Hkeys k).
  destruct (cache w !! k) as [el|].
  - destruct Hkeys as [-> _]. done.
  - destruct Hkeys as [[-> _]|[-> _]]; [done|]. simpl. split; intros [=].
Qed.

(** Without [load_json] and [embed] the loop of [update_cache] comes to
    the first key of [frames], and to the key at a later position [p]
    only from the key [p - 1]: every entry it adds is for a key at
    position 0 of [Object.keys(frames)] or at a position whose
    predecessor is itself a key of [frames]. *)
Theorem update_cache_reaches (w : widget) :
  load_json w = false → embed w = false →
  ∃ w', update_cache w = Done w'
    ∧ (∀ k0, obj_keys (frames w) !! 0%nat = Some k0 → is_Some (cache w' !! k0))
    ∧ ∀ k, cache w !! k = None → is_Some (cache w' !! k) →
        ∃ p : nat, obj_keys (frames w) !! p = Some k
          ∧ (p = 0%nat
             ∨ ∃ n, N.of_nat p = (n + 1)%N ∧ is_Some (frames w !! Num n)).
Proof.
  intros Hl He. unfold update_cache.
  set (reached (k : index) := ∃ p : nat, obj_keys (frames w) !! p = Some k
          ∧ (p = 0%nat
             ∨ ∃ n, N.of_nat p = (n + 1)%N ∧ is_Some (frames w !! Num n))).
  set (Inv (first : bool) (w1 : widget) :=
         grown w w1
         ∧ (first = true → ∀ k0, obj_keys (frames w) !! 0%nat = Some k0 →
              is_Some (cache w1 !! k0))
         ∧ ∀ k, cache w !! k = None → is_Some (cache w1 !! k) → reached k).
  destruct (update_cache_loop_rule (frame_len w)
    (λ i w1, Inv (negb (i =? 0)%N) w1
             ∧ (i = 0%N ∨ ∃ n, i = (n + 1)%N ∧ is_Some (frames w !! Num n)))
    (λ w1, Inv true w1 ∨ (frame_len w = 0%N ∧ Inv false w1)))
    with (fuel := N.to_nat (frame_len w)) (i := 0%N) (w := w)
    as (w' & Hw' & HQ).
  - intros i w1 Hi [(Hg & Hfirst & Hnew) Hpos]. simpl.
    assert (load_json w1 = false) as Hl1.
    { by destruct Hg as [(_&_&->&_)%rest_fields _]. }
    assert (∃ k, obj_keys (frames w) !! N.to_nat i = Some k
                 ∧ loop_key i w1 = k) as (k & Hk & ->).
    { unfold loop_key. rewrite Hl1, (grown_frames w w1 Hg He).
      destruct (obj_keys (frames w) !! N.to_nat i) as [k|] eqn:Hk; [eauto|].
      apply lookup_ge_None_1 in Hk. rewrite obj_keys_length in Hk.
      unfold frame_len in Hi. rewrite Hl in Hi. lia. }
    set (w2 := if has_key k (cache w1) then w1 else add_entry k w1).
    assert (Inv true w2) as Hinv.
    { split; [by apply grown_step|]. split.
      - intros _ k0 Hk0. apply has_key_step.
        destruct (N.eqb_spec i 0) as [->|Hne].
        + right. change (N.to_nat 0) with 0%nat in Hk. congruence.
        + left. by apply Hfirst.
      - intros k' Hnone [Hin| ->]%has_key_step; [by apply Hnew|].
        exists (N.to_nat i). split; [done|].
        destruct Hpos as [->|(n & -> & Hn)]; [by left|].
        right. exists n. split; [lia|done]. }
    destruct k as [n|]; [|by left].
    split.
    + replace (negb (n + 1 =? 0)%N) with true; [done|].
      symmetry. apply negb_true_iff, N.eqb_neq. lia.
    + right. exists n. split; [done|]. by eapply obj_keys_lookup_Some.
  - intros i w1 Hi [Hinv Hpos].
    destruct (N.eqb_spec i 0) as [->|Hne]; [|by left].
    right. split; [lia|done].
  - lia.
  - split; [|by left]. split; [apply grown_refl|]. split; [done|].
    intros k Hnone [el Hel]. congruence.
  - exists w'. split; [done|].
    destruct HQ as [(_ & Hfirst & Hnew)|[Hlen (_ & _ & Hnew)]].
    + split; [by apply Hfirst|done].
    + split; [|done]. intros k0 Hk0.
      apply lookup_lt_Some in Hk0. rewrite obj_keys_length in Hk0.
      unfold frame_len in Hlen. rewrite Hl in Hlen. lia.
Qed.

(** ** [update], [populate_cache] *)

Lemma set_cache_set_cache (f g : gmap index element → gmap index element)
    (w : widget) :
  set_cache f (set_cache g w) = set_cache (λ c, f (g c)) w.
Proof. reflexivity. Qed.

Lemma set_cache_ext (f g : gmap index element → gmap index element)
    (w : widget) :
  f (cache w) = g (cache w) → set_cache f w = set_cache g w.
Proof. unfold set_cache. by intros ->. Qed.

Lemma has_key_shown {V} (a b : index) (f g : V → V) (c : gmap index V) :
  has_key b (alter f a (g <$> c)) = has_key b c.
Proof.
  unfold has_key. apply bool_decide_ext.
  rewrite lookup_alter. case_decide; subst; rewrite lookup_fmap;
    rewrite ?fmap_is_Some; done.
Qed.

(** Of two [update] calls in a row the second decides what is shown if
    its frame is in the cache, and has no effect if it is not; calling
    [update] twice with one frame is the same as calling it once. *)
Theorem update_then_update (a b : index) (w : widget) :
  update a w >>> update b
  = if has_key b (cache w) then update b w else update a w.
Proof.
  unfold update at 1 3 4.
  destruct (has_key a (cache w)) eqn:Ha; simpl; unfold update; simpl.
  - rewrite has_key_shown. destruct (has_key b (cache w)) eqn:Hb; [|done].
    f_equal. rewrite set_cache_set_cache. apply set_cache_ext.
    apply map_eq. intros k. rewrite !lookup_shown.
    destruct (cache w !! k) as [el|]; [|done]. simpl. f_equal.
    unfold reveal. by repeat case_decide.
  - by destruct (has_key b (cache w)).
Qed.

(** Populating an entry a second time changes nothing, also under
    [embed], where the first call has deleted the frame and the second
    finds none to write; and on a key without an entry both calls end in
    the same TypeError. *)
Theorem populate_cache_twice (idx : index) (w : widget) :
  populate_cache idx w >>> populate_cache idx = populate_cache idx w.
Proof.
  unfold populate_cache at 1 3.
  destruct (load_json w) eqn:Hl, (cache w !! idx) as [el|] eqn:Hel;
    simpl; try done.
  - unfold populate_cache. simpl. rewrite Hl, lookup_insert_eq. f_equal.
    unfold set_cache. simpl. by rewrite insert_insert_eq.
  - destruct (embed w) eqn:He; unfold populate_cache; simpl;
      rewrite Hl, lookup_insert_eq, He; f_equal;
      unfold set_cache, set_frames; simpl.
    + rewrite lookup_delete_eq. simpl. rewrite insert_insert_eq.
      f_equal. apply map_eq. intros k.
      destruct (decide (k = idx)) as [->|Hne];
        by rewrite ?lookup_delete_eq, ?lookup_delete_ne.
    + destruct (frames w !! idx); simpl; by rewrite insert_insert_eq.
Qed.

(** ** [set_frame] *)

(** When the key is built, the key map has a frame for it and that
    frame is in the cache, [set_frame] records the frame number, sends
    the kernel nothing, and leaves exactly that frame shown, cached
    widget or not. *)
Theorem set_frame_shows_frame (dim_val : jsval) (dim_idx : nat)
    (w : widget) (key : string) (n : N) :
  build_key (array_set dim_idx dim_val (current_vals w))
    (length (slider_ids w)) = Some key →
  keyMap w !! key = Some n →
  is_Some (cache w !! Num n) →
  ∃ w', set_frame dim_val dim_idx w = Done w'
    ∧ current_frame w' = Num n
    ∧ current_vals w' = array_set dim_idx dim_val (current_vals w)
    ∧ kernel w' = kernel w ∧ frames w' = frames w
    ∧ ∀ k, cache w' !! k = reveal (Num n) k <$> cache w !! k.
Proof.
  intros Hkey Hn Hc. rewrite (set_frame_steps _ _ _ key Hkey).
  unfold lookup_frame. simpl. rewrite Hn.
  set (w1 := set_current_frame (Num n) _).
  assert ((if cached w then update (Num n) w1 else dynamic_update (Num n) w1)
          = update (Num n) w1) as ->.
  { destruct (cached w); [done|]. unfold dynamic_update, has_key.
    by rewrite bool_decide_eq_true_2. }
  rewrite update_present by done. eexists. split; [done|].
  repeat split. intros k. apply lookup_shown.
Qed.

(** However [set_frame] ends, [dim_val] is stored. *)
Lemma set_frame_stores (dim_val : jsval) (dim_idx : nat) (w : widget) :
  ∃ w', state_of (set_frame dim_val dim_idx w) = Some w'
    ∧ current_vals w' = array_set dim_idx dim_val (current_vals w).
Proof.
  unfold set_frame. simpl.
  destruct (build_key _ _) as [key|]; simpl; [|by eexists].
  set (current := lookup_frame _ _). set (w1 := set_current_frame _ _).
  destruct (cached w).
  - destruct (update_keeps current w1) as (w' & -> & _ & Hr & _).
    exists w'. split; [done|]. unfold rest in Hr. by injection Hr.
  - destruct (dynamic_update_keeps current w1) as (w' & -> & Hv & _).
    exists w'. by split.
Qed.

(** What [set_frame] leaves alone, however it ends. *)
Lemma set_frame_changes (dim_val : jsval) (dim_idx : nat) (w : widget) :
  ∃ w', state_of (set_frame dim_val dim_idx w) = Some w'
    ∧ frames w' = frames w ∧ config w' = config w
    ∧ (∀ k, hide <$> cache w' !! k = hide <$> cache w !! k)
    ∧ (kernel w' = kernel w
       ∨ cached w = false
         ∧ cache w !! current_frame w' = None
         ∧ kernel w' = (kernel w ++ [update_request w (current_frame w')])%list).
Proof.
  unfold set_frame. simpl.
  destruct (build_key _ _) as [key|]; simpl; [|by eexists; eauto 10].
  set (current := lookup_frame _ _). set (w1 := set_current_frame _ _).
  assert (∀ w', update current w1 = Done w' →
            frames w' = frames w ∧ config w' = config w
            ∧ (∀ k, hide <$> cache w' !! k = hide <$> cache w !! k)
            ∧ kernel w' = kernel w) as Hupd.
  { intros w' Hw'.
    destruct (update_keeps current w1) as (w2 & Hw2 & Hf & Hr & Hk).
    assert (w2 = w') as -> by congruence.
    split; [done|]. split; [by rewrite (rest_config _ _ Hr)|]. split.
    - intros k. rewrite Hk. change (cache w1) with (cache w).
      destruct (cache w !! k) as [el|]; [|done]. simpl. f_equal.
      destruct (has_key current (cache w)); [|done].
      unfold reveal. by case_decide.
    - by apply rest_fields in Hr as (_&_&_&_&_&->&_). }
  destruct (cached w) eqn:Hca.
  - destruct (update_returns current w1) as (w' & Hw').
    rewrite Hw'. exists w'. split; [done|].
    destruct (Hupd w' Hw') as (? & ? & ? & ?). eauto.
  - unfold dynamic_update. change (cache w1) with (cache w).
    destruct (has_key current (cache w)) eqn:Hin; simpl.
    + destruct (update_returns current w1) as (w' & Hw').
      rewrite Hw'. exists w'. split; [done|].
      destruct (Hupd w' Hw') as (? & ? & ? & ?). eauto.
    + eexists. split; [done|]. split; [done|]. split; [done|].
      split; [done|]. right. split; [done|]. split; [|done].
      simpl. unfold has_key in Hin. apply bool_decide_eq_false in Hin.
      by apply eq_None_not_Some.
Qed.

(** Whatever its arguments and however it ends, [set_frame] writes
    [dim_val] into [current_vals[dim_idx]], leaves the frames and the
    configuration alone, keeps every cache entry, adding none, and
    changes of an entry only whether it is shown; to the kernel it sends
    nothing or, for a widget that is not cached, the one request for the
    frame it has just recorded, which is then not in the cache. *)
Theorem set_frame_footprint (dim_val : jsval) (dim_idx : nat) (w : widget) :
  ∃ w', state_of (set_frame dim_val dim_idx w) = Some w'
    ∧ current_vals w' = array_set dim_idx dim_val (current_vals w)
    ∧ frames w' = frames w ∧ config w' = config w
    ∧ (∀ k, hide <$> cache w' !! k = hide <$> cache w !! k)
    ∧ (kernel w' = kernel w
       ∨ cached w = false
         ∧ cache w !! current_frame w' = None
         ∧ kernel w' = (kernel w ++ [update_request w (current_frame w')])%list).
Proof.
  destruct (set_frame_changes dim_val dim_idx w) as (w' & Hw' & Hrest).
  destruct (set_frame_stores dim_val dim_idx w) as (w1 & Hw1 & Hcv).
  assert (w1 = w') as -> by congruence. by exists w'.
Qed.

(** No key is built exactly when one of the values read is a string
    that converts to a number. *)
Lemma build_key_None (vals : list jsval) (len : nat) :
  build_key vals len = None
  ↔ ∃ j s, (j < len)%nat ∧ vals !! j = Some (VStr s) ∧ str_isNaN s = false.
Proof.
  rewrite build_key_tuple, fmap_None, mapM_None, Exists_exists.
  unfold slider_vals. split.
  - intros (v & (j & -> & Hj%elem_of_seq)%list_elem_of_fmap & Hv).
    unfold array_get in Hv.
    destruct (vals !! j) as [[x|s|]|] eqn:Hvj; simpl in Hv;
      try done; [by destruct (is_nan x)|].
    exists j, s. split; [lia|]. split; [done|].
    by destruct (str_isNaN s).
  - intros (j & s & Hj & Hvj & Hs). exists (VStr s). split.
    + apply list_elem_of_fmap. exists j. split.
      * unfold array_get. by rewrite Hvj.
      * apply elem_of_seq. lia.
    + simpl. by rewrite Hs.
Qed.

(** [set_frame] throws exactly when one of the slider values its loop
    reads, [dim_val] in its place, is a string that converts to a
    number; the widget is then as before but for [dim_val] stored in
    [current_vals], and it never ends otherwise than returning or in
    this TypeError. *)
Theorem set_frame_throws_iff (dim_val : jsval) (dim_idx : nat) (w : widget) :
  let vals := array_set dim_idx dim_val (current_vals w) in
  (set_frame dim_val dim_idx w = TypeError (set_current_vals (λ _, vals) w)
   ↔ ∃ j s, (j < length (slider_ids w))%nat
            ∧ vals !! j = Some (VStr s) ∧ str_isNaN s = false)
  ∧ ((∃ w', set_frame dim_val dim_idx w = Done w')
     ∨ set_frame dim_val dim_idx w
       = TypeError (set_current_vals (λ _, vals) w)).
Proof.
  intros vals.
  pose proof (build_key_None vals (length (slider_ids w))) as Hnone.
  assert (set_current_vals (array_set dim_idx dim_val) w
          = set_current_vals (λ _, vals) w) as Hw by done.
  unfold set_frame. simpl. fold vals. rewrite Hw.
  destruct (build_key vals (length (slider_ids w))) as [key|] eqn:Hkey.
  - set (current := lookup_frame _ _). set (w1 := set_current_frame _ _).
    assert (∃ w', (if cached w then update current w1
                   else dynamic_update current w1) = Done w') as [w' Hw'].
    { destruct (cached w).
      - apply update_returns.
      - destruct (dynamic_update_keeps current w1) as (w' & ? & _). eauto. }
    rewrite Hw'. split; [|eauto]. split; [done|].
    intros Hex. apply Hnone in Hex. done.
  - split; [|by right]. split; [|done]. intros _. by apply Hnone.
Qed.

(** A dropdown value written in decimal digits only, a year say, makes
    [set_frame] throw whenever its place is one the key loop reads. *)
Theorem set_frame_digit_string (s : string) (dim_idx : nat) (w : widget) :
  s ≠ "" → all_chars is_dec_digit s = true →
  (dim_idx < length (slider_ids w))%nat →
  set_frame (VStr s) dim_idx w
  = TypeError (set_current_vals (array_set dim_idx (VStr s)) w).
Proof.
  intros Hne Hdigits Hidx. apply set_frame_throws.
  apply build_key_None. exists dim_idx, s.
  split; [done|]. split; [apply array_set_lookup|].
  assert (∀ t, all_chars is_dec_digit t = true →
            drop_digits is_dec_digit t = "") as Hdrop.
  { induction t as [|c t IH]; simpl; [done|].
    intros [-> Ht]%andb_true_iff. auto. }
  destruct s as [|c r]; [done|]. simpl in Hdigits.
  apply andb_true_iff in Hdigits as [Hc Hr].
  assert (is_ascii_ws c = false) as Hws.
  { unfold is_dec_digit, in_range in Hc. unfold is_ascii_ws.
    destruct (N.leb_spec 48 (byte_of c)), (N.leb_spec (byte_of c) 57);
      try done.
    destruct (N.leb_spec 9 (byte_of c)), (N.leb_spec (byte_of c) 13),
      (N.eqb_spec (byte_of c) 32); simpl; try done; lia. }
  assert (skip_ws (String c r) = String c r) as Hskip.
  { assert (byte_of c < 128)%N as Hlt.
    { unfold is_dec_digit, in_range in Hc.
      destruct (N.leb_spec (byte_of c) 57); [lia|].
      by rewrite andb_false_r in Hc. }
    simpl. rewrite Hws. destruct r as [|c2 r2]; [done|].
    replace (byte_of c =? 194)%N with false
      by (symmetry; apply N.eqb_neq; lia).
    simpl. destruct r2 as [|c3 r3]; [done|].
    replace (byte_of c =? 225)%N with false
      by (symmetry; apply N.eqb_neq; lia).
    replace (byte_of c =? 226)%N with false
      by (symmetry; apply N.eqb_neq; lia).
    replace (byte_of c =? 227)%N with false
      by (symmetry; apply N.eqb_neq; lia).
    replace (byte_of c =? 239)%N with false
      by (symmetry; apply N.eqb_neq; lia).
    done. }
  assert (drop_sign (String c r) = String c r) as Hsign.
  { unfold drop_sign. rewrite bool_decide_eq_false_2; [done|].
    unfold is_dec_digit, in_range in Hc.
    intros [->| ->]; vm_compute in Hc; done. }
  assert (String.prefix "Infinity" (String c r) = false) as Hinf.
  { change (String.prefix "Infinity" (String c r))
      with (if Ascii.ascii_dec "I" c then String.prefix "nfinity" r
            else false).
    destruct (Ascii.ascii_dec "I" c) as [<-|?]; [|done].
    vm_compute in Hc. done. }
  unfold str_isNaN. rewrite Hskip, Hsign.
  assert (ends_clean (unsigned_decimal (String c r)) = true) as ->.
  { unfold unsigned_decimal. rewrite Hinf.
    unfold digits1. rewrite Hc, (Hdrop r Hr). done. }
  by rewrite orb_true_r.
Qed.

(** A cached widget under its controls never sends the kernel
    anything, at construction or later. *)
Theorem cached_widget_never_asks (w : widget) :
  slider_driven w → cached w = true ∧ kernel w = [].
Proof.
  induction 1 as [f i s km dv nf lj mo w Hf Hw|v i w w' _ [Hc Hq] Hw'].
  - unfold constructor, init_slider in Hw. simpl in Hw.
    set (w0 := fresh f i s km dv nf lj mo true) in *.
    destruct (update_cache_grown w0) as (w1 & Hw1 & Hg).
    rewrite Hw1 in Hw. simpl in Hw.
    destruct (update_keeps (Num 0) w1) as (w2 & Hw2 & _ & Hr & _).
    rewrite Hw2 in Hw. assert (w2 = w) as -> by congruence.
    apply rest_fields in Hr as (_&_&_&_&_&->&->).
    by destruct Hg as [(_&_&_&_&_&->&->)%rest_fields _].
  - destruct (set_frame_changes v i w) as (w1 & Hw1 & _ & Hcfg & _ & Hk).
    assert (w1 = w') as -> by congruence. split.
    + unfold config in Hcfg. injection Hcfg as _ _ _ _ _ _ _ _ -> _. done.
    + destruct Hk as [->|[? _]]; [done|congruence].
Qed.

Lemma reachable_embed (w : widget) : reachable w → embed w = false.
Proof.
  assert (∀ w1 w2, advances w1 w2 → embed w2 = embed w1) as Hembed.
  { intros w1 w2 (Hc & _). unfold config in Hc. by injection Hc. }
  induction 1 as [f i s km dv nf lj mo ca w Hw|c w w' _ IH Hw'].
  - destruct (constructor_returns f i s km dv nf lj mo ca) as (w1 & Hw1 & Ha).
    rewrite Hw in Hw1. simplify_eq. by rewrite (Hembed _ _ Ha).
  - destruct (invoke_advances c w) as (w1 & Hw1 & Ha).
    rewrite Hw' in Hw1. simplify_eq. by rewrite (Hembed _ _ Ha).
Qed.

Lemma update_cache_then_update_frames (current : index) (w : widget) :
  embed w = false →
  ∃ w', update_cache w >>> update current = Done w' ∧ frames w' = frames w.
Proof.
  intros He. destruct (update_cache_grown w) as (w1 & Hw1 & Hg).
  destruct (update_keeps current w1) as (w2 & Hw2 & Hf & _).
  exists w2. rewrite Hw1. simpl. split; [done|].
  rewrite Hf. by apply grown_frames.
Qed.

(** The frames a widget holds are written by the response callback
    alone, one frame under the key asked for; no other method of a
    widget built by the constructor adds, replaces or deletes a frame.
    In particular the [delete this.frames[idx]] of [populate_cache]
    never runs: nothing sets [embed]. *)
Theorem frames_written_by_callback_only (c : call) (w w' : widget) :
  reachable w → state_of (invoke c w) = Some w' →
  embed w' = false
  ∧ frames w' = match c with
                | CallCallback current text =>
                    <[current := slice_1_m1 text]> (frames w)
                | _ => frames w
                end.
Proof.
  intros Hr Hw'. split.
  { apply reachable_embed. by apply (reachable_call c w). }
  apply reachable_embed in Hr.
  destruct c as [v|idx|current|current text| |current|v i]; simpl in Hw'.
  - unfold init_slider in Hw'. destruct (cached w).
    + destruct (update_cache_then_update_frames (Num 0) w Hr) as (w1 & Hw1 & Hf).
      rewrite Hw1 in Hw'. by simplify_eq/=.
    + destruct (dynamic_update_keeps (Num 0) w) as (w1 & Hw1 & _ & _ & Hf).
      rewrite Hw1 in Hw'. by simplify_eq/=.
  - unfold populate_cache in Hw'.
    destruct (load_json w), (cache w !! idx); simpl in Hw';
      rewrite ?Hr in Hw'; by simplify_eq/=.
  - destruct (dynamic_update_keeps current w) as (w1 & Hw1 & _ & _ & Hf).
    rewrite Hw1 in Hw'. by simplify_eq/=.
  - unfold callback in Hw'.
    destruct (update_cache_then_update_frames current
                (set_frames <[current := slice_1_m1 text]> w) Hr)
      as (w1 & Hw1 & Hf).
    rewrite Hw1 in Hw'. by simplify_eq/=.
  - destruct (update_cache_grown w) as (w1 & Hw1 & Hg).
    rewrite Hw1 in Hw'. simplify_eq/=. by apply grown_frames.
  - destruct (update_keeps current w) as (w1 & Hw1 & Hf & _).
    rewrite Hw1 in Hw'. by simplify_eq/=.
  - destruct (set_frame_changes v i w) as (w1 & Hw1 & Hf & _).
    rewrite Hw1 in Hw'. by simplify_eq/=.
Qed.

(** * Properties of the controls *)

Lemma keyable_array_get (vals : list jsval) (i : nat) :
  Forall keyable vals → keyable (array_get vals i).
Proof.
  intros Hvals. unfold array_get.
  destruct (vals !! i) as [v|] eqn:Hv; simpl; [|by intros s].
  rewrite Forall_forall in Hvals. by eapply Hvals, list_elem_of_lookup_2.
Qed.

Lemma keyable_array_set (vals : list jsval) (i : nat) (v : jsval) :
  Forall keyable vals → keyable v → Forall keyable (array_set i v vals).
Proof.
  intros Hvals Hv. unfold array_set. case_match.
  - by apply Forall_insert.
  - apply Forall_app. split; [done|]. apply Forall_app. split.
    + apply Forall_replicate. by intros s.
    + by apply Forall_singleton.
Qed.

Lemma set_frame_keyable (dim_val : jsval) (dim_idx : nat) (w : widget) :
  Forall keyable (current_vals w) → keyable dim_val →
  ∃ w', set_frame dim_val dim_idx w = Done w'
    ∧ Forall keyable (current_vals w').
Proof.
  intros Hvals Hv.
  pose proof (keyable_array_set _ dim_idx _ Hvals Hv) as Hvals'.
  destruct (build_key (array_set dim_idx dim_val (current_vals w))
              (length (slider_ids w))) as [key|] eqn:Hkey.
  - destruct (set_frame_stores dim_val dim_idx w) as (w' & Hw' & Hcv).
    rewrite (set_frame_steps _ _ _ key Hkey) in Hw' |- *. simpl in *.
    set (r := if cached w then _ else _) in *.
    assert (∃ w1, r = Done w1) as [w1 Hr].
    { subst r. destruct (cached w); [apply update_returns|].
      edestruct dynamic_update_keeps as (w1 & ? & _); eauto. }
    rewrite Hr in Hw' |- *. exists w1. split; [done|].
    simpl in Hw'. assert (w1 = w') as -> by congruence. by rewrite Hcv.
  - apply build_key_None in Hkey as (j & s & _ & Hj & Hs).
    rewrite Forall_forall in Hvals'.
    rewrite (Hvals' (VStr s) (list_elem_of_lookup_2 _ _ _ Hj) s eq_refl) in Hs.
    done.
Qed.

(** As long as no value of a control, and none of the initial values,
    is a string that converts to a number, no handler of any sequence
    of slide and change events throws: each returns, and the values
    held stay free of such strings. *)
Theorem handlers_never_throw (evs : list ui_event) (p : page) :
  Forall keyable (current_vals (anim p)) → Forall keyable_event evs →
  length (outcomes evs p) = length evs
  ∧ Forall (λ r, ∃ w, r = Done w) (outcomes evs p)
  ∧ ∃ p', after evs p = Some p' ∧ Forall keyable (current_vals (anim p')).
Proof.
  revert p. induction evs as [|e evs IH]; intros p Hp Hevs; simpl.
  - split; [done|]. split; [constructor|]. eauto.
  - apply Forall_cons in Hevs as [He Hevs].
    assert (∃ w', (handle e p).2 = Done w'
                  ∧ Forall keyable (current_vals w')) as (w' & Hw' & Hk).
    { destruct e as [c v|c v]; simpl in *;
        apply set_frame_keyable; auto using keyable_array_get. }
    rewrite Hw'. simpl.
    destruct (IH (Page (handle e p).1 w') Hk Hevs) as (Hlen & Hall & Hafter).
    split; [by rewrite Hlen|]. split; [|done].
    constructor; [eauto|done].
Qed.

(** ** Playing from the keyboard *)

Lemma Sorted_scaled_seqZ (delay : Z) (n : nat) (m : Z) :
  (0 ≤ delay)%Z →
  Sorted Z.le ((λ i, i * delay)%Z <$> seqZ m (Z.of_nat n)).
Proof.
  intros Hd. revert m. induction n as [|n IH]; intros m.
  - rewrite seqZ_nil by lia. constructor.
  - rewrite seqZ_cons by lia.
    replace (Z.pred (Z.of_nat (S n))) with (Z.of_nat n) by lia.
    simpl. constructor; [apply IH|].
    destruct n as [|n]; [rewrite seqZ_nil by lia; constructor|].
    rewrite seqZ_cons by lia. simpl. constructor. nia.
Qed.

Lemma Sorted_scaled (delay m n : Z) :
  (0 ≤ delay)%Z → Sorted Z.le ((λ i, i * delay)%Z <$> seqZ m n).
Proof.
  intros Hd. destruct (decide (0 ≤ n)%Z) as [Hn|Hn].
  - rewrite <- (Z2Nat.id n) by done. by apply Sorted_scaled_seqZ.
  - rewrite seqZ_nil by lia. constructor.
Qed.

(** P or p: one timer for each position from the slider's value to its
    maximum, in ascending order, the timer for position [i] due after
    [i * delay], so that the first waits [value * delay]; the timeouts
    never decrease in the order the timers are set, so the timers fire
    in that order.  None is set from a value past the maximum. *)
Theorem keypress_play (which value max delay : Z) :
  (which = 80 ∨ which = 112)%Z → (0 ≤ delay)%Z →
  let timers := keypress which value max delay in
  timers.*2 = seqZ value (max - value + 1)
  ∧ timers.*1 = (λ i, i * delay)%Z <$> timers.*2
  ∧ Sorted Z.le timers.*1
  ∧ length timers = Z.to_nat (max - value + 1).
Proof.
  intros Hw Hd. unfold keypress.
  rewrite bool_decide_eq_true_2 by done.
  rewrite bool_decide_eq_false_2 by lia. simpl. rewrite app_nil_r.
  unfold play_forward.
  assert (((λ i, (i * delay, i)%Z) <$> seqZ value (max - value + 1)).*2
          = seqZ value (max - value + 1)) as H2.
  { rewrite <- list_fmap_compose. apply list_fmap_id. }
  assert (((λ i, (i * delay, i)%Z) <$> seqZ value (max - value + 1)).*1
          = (λ i, i * delay)%Z <$> seqZ value (max - value + 1)) as H1.
  { by rewrite <- list_fmap_compose. }
  rewrite H2, H1. split; [done|]. split; [done|].
  split; [by apply Sorted_scaled|]. by rewrite length_fmap, length_seqZ.
Qed.

(** R or r: one timer for each position from the slider's value down
    to 0, in descending order, the first due at once and each next one
    [delay] later; the timers fire in the order they are set. *)
Theorem keypress_rewind (which value max delay : Z) :
  (which = 82 ∨ which = 114)%Z → (0 ≤ delay)%Z →
  let timers := keypress which value max delay in
  timers.*2 = reverse (seqZ 0 (value + 1))
  ∧ timers.*1 = (λ count, count * delay)%Z <$> seqZ 0 (value + 1)
  ∧ Sorted Z.le timers.*1
  ∧ length timers = Z.to_nat (value + 1).
Proof.
  intros Hw Hd. unfold keypress.
  rewrite bool_decide_eq_false_2 by lia.
  rewrite bool_decide_eq_true_2 by done. simpl.
  unfold play_backward. replace (value - 0 + 1)%Z with (value + 1)%Z by lia.
  assert (((λ count, (count * delay, value - count)%Z)
             <$> seqZ 0 (value + 1)).*1
          = (λ count, count * delay)%Z <$> seqZ 0 (value + 1)) as H1.
  { by rewrite <- list_fmap_compose. }
  rewrite H1. split; [|split; [done|split]].
  - rewrite <- list_fmap_compose.
    apply list_eq. intros i. rewrite list_lookup_fmap.
    destruct (decide (Z.of_nat i < value + 1)%Z) as [Hi|Hi].
    + rewrite lookup_seqZ_lt by done. simpl.
      symmetry. rewrite reverse_lookup by (rewrite length_seqZ; lia).
      rewrite length_seqZ. apply lookup_seqZ. lia.
    + rewrite lookup_seqZ_ge by lia. simpl. symmetry.
      apply lookup_ge_None_2. rewrite length_reverse, length_seqZ. lia.
  - by apply Sorted_scaled.
  - by rewrite length_fmap, length_seqZ.
Qed.

(** Whatever the key, a timer set by [keypress] moves the slider to a
    position within its range, so the [slide] handler it then calls
    reads an entry of [valMap], never past its end. *)
Theorem keypress_in_range (which value delay : Z) (vals : list jsval)
    (t i : Z) :
  (0 ≤ value ≤ slider_max vals)%Z →
  (t, i) ∈ keypress which value (slider_max vals) delay →
  (0 ≤ i ≤ slider_max vals)%Z ∧ is_Some (vals !! Z.to_nat i).
Proof.
  intros Hv Hin.
  assert (0 ≤ i ≤ slider_max vals)%Z as Hi.
  { unfold keypress in Hin. apply elem_of_app in Hin as [Hin|Hin];
      case_bool_decide; try by apply elem_of_nil in Hin.
    - apply list_elem_of_fmap in Hin as (j & [= -> ->] & Hj).
      apply elem_of_seqZ in Hj. lia.
    - apply list_elem_of_fmap in Hin as (j & [= -> ->] & Hj).
      apply elem_of_seqZ in Hj. lia. }
  split; [done|]. apply lookup_lt_is_Some. unfold slider_max in Hi. lia.
Qed.

(** ** The text of a key *)

Lemma length_append (a b : string) :
  String.length (a +:+ b) = (String.length a + String.length b)%nat.
Proof.
  induction a as [|x a IH]; [done|]. rewrite append_cons. simpl. by rewrite IH.
Qed.

Lemma substring_all (b : string) : String.substring 0 (String.length b) b = b.
Proof. induction b as [|x b IH]; [done|]. simpl. by rewrite IH. Qed.

Lemma substring_append_l (a b : string) :
  String.substring 0 (String.length a) (a +:+ b) = a.
Proof.
  induction a as [|x a IH]; [by destruct b|].
  rewrite append_cons. simpl. by rewrite IH.
Qed.

Lemma substring_append_r (a b : string) :
  String.substring (String.length a) (String.length b) (a +:+ b) = b.
Proof.
  induction a as [|x a IH]; [apply substring_all|].
  rewrite append_cons. simpl. apply IH.
Qed.

Lemma pretty_N_go_append (x : N) (s : string) :
  pretty_N_go x s = pretty_N_go x "" +:+ s.
Proof.
  revert s. induction (N.lt_wf_0 x) as [x _ IH]; intros s.
  assert (x = 0 ∨ 0 < x)%N as [->|Hx] by lia; [by rewrite !pretty_N_go_0|].
  rewrite (pretty_N_go_step x s), (pretty_N_go_step x "") by done.
  rewrite (IH (x `div` 10)%N) by (by apply N.div_lt).
  rewrite (IH (x `div` 10)%N (N.div_lt x 10 Hx eq_refl) (String _ "")).
  by rewrite append_assoc.
Qed.

Lemma pretty_tenfold (n : N) :
  (0 < n)%N → pretty (10 * n)%N = pretty n +:+ "0".
Proof.
  intros Hn. unfold pretty, pretty_N.
  rewrite !decide_False by lia.
  rewrite pretty_N_go_step by lia.
  rewrite (N.mul_comm 10 n), N.div_mul, N.Div0.mod_mul by done.
  apply pretty_N_go_append.
Qed.

Lemma pretty_nonempty (n : N) : (0 < String.length (pretty n))%nat.
Proof.
  unfold pretty, pretty_N. case_decide as Hn; [simpl; lia|].
  rewrite pretty_N_go_step, pretty_N_go_append, length_append by lia.
  simpl. lia.
Qed.

Lemma place_point_tenfold (n : N) :
  (0 < n)%N → place_point (Z.of_N (10 * n)) 1 = pretty n +:+ ".0".
Proof.
  intros Hn. unfold place_point, N_to_string.
  rewrite N2Z.id, pretty_tenfold by done.
  pose proof (pretty_nonempty n) as Hlen.
  cbv zeta. rewrite !length_append. simpl String.length.
  rewrite (proj2 (Nat.leb_gt _ _)) by lia.
  rewrite !length_append. simpl String.length.
  replace (String.length (pretty n) + 1 - 1)%nat
    with (String.length (pretty n)) by lia.
  rewrite substring_append_l.
  change 1%nat with (String.length "0") at 1.
  by rewrite substring_append_r.
Qed.

Lemma toFixed_integer (s : bool) (p : positive) :
  (Z.pos p ≤ 2 ^ 53)%Z →
  toFixed (S754_finite s p 0) 1 = sign_prefix s +:+ pretty (N.pos p) +:+ ".0".
Proof.
  intros Hp. change (2 ^ 53)%Z with 9007199254740992%Z in Hp.
  unfold toFixed.
  assert (ge_1e21 p 0 = false) as ->.
  { unfold ge_1e21. change (0 <=? 0)%Z with true. cbv iota.
    apply Z.leb_gt. change (2 ^ 0)%Z with 1%Z.
    change (10 ^ 21)%Z with 1000000000000000000000%Z. lia. }
  assert (round_scaled p 0 1 = Z.of_N (10 * N.pos p)) as ->.
  { unfold round_scaled. change (0 <=? 0)%Z with true. cbv iota.
    change (2 ^ 0)%Z with 1%Z. change (10 ^ Z.of_nat 1)%Z with 10%Z. lia. }
  by rewrite place_point_tenfold.
Qed.

(** An integer Number, up to [2^53] either way, is written into the
    key with exactly one decimal, a zero: its sign, its decimal digits
    and [".0"].  So 2015 gives ['2015.0'], the form the keys of [keyMap]
    have to be in. *)
Theorem stringify_integer (z : Z) :
  (Z.abs z ≤ 2 ^ 53)%Z →
  stringify (VNum (num z))
  = Some (sign_prefix (z <? 0)%Z +:+ pretty (Z.abs_N z) +:+ ".0").
Proof.
  intros Hz. destruct z as [|p|p]; [done|..]; unfold stringify, num.
  - change (is_nan (S754_finite false p 0)) with false.
    change (mod1_is_zero (S754_finite false p 0)) with true. cbv iota.
    by rewrite toFixed_integer.
  - change (is_nan (S754_finite true p 0)) with false.
    change (mod1_is_zero (S754_finite true p 0)) with true. cbv iota.
    by rewrite toFixed_integer.
Qed.

(** ** Keys tell slider positions apart *)

Lemma tuple_key_items (items : list string) :
  tuple_key items = "(" +:+ key_items items.
Proof.
  assert (∀ l x, join_comma (quoted <$> x :: l) +:+ ")"
                 = "'" +:+ x +:+ "'" +:+ key_more l) as Hmore.
  { induction l as [|y l IH]; intros x.
    - simpl. unfold quoted. by rewrite !append_assoc.
    - change (join_comma (quoted <$> x :: y :: l))
        with (quoted x +:+ ", " +:+ join_comma (quoted <$> y :: l)).
      rewrite !append_assoc, IH. unfold quoted. by rewrite !append_assoc. }
  unfold tuple_key. destruct items as [|x [|y l]].
  - done.
  - simpl. unfold quoted. by rewrite !append_assoc.
  - f_equal. change (length (x :: y :: l) =? 1)%nat with false.
    change ("" +:+ ")") with ")". apply Hmore.
Qed.

Lemma first_quote (x y s t : string) :
  quote_free x = true → quote_free y = true →
  x +:+ String "'" s = y +:+ String "'" t → x = y ∧ s = t.
Proof.
  revert y. induction x as [|c x IH]; intros [|d y] Hx Hy Heq.
  - by injection Heq as ->.
  - rewrite append_cons in Heq. injection Heq as <- _.
    by vm_compute in Hy.
  - rewrite append_cons in Heq. injection Heq as -> _.
    by vm_compute in Hx.
  - rewrite !append_cons in Heq. injection Heq as -> Heq.
    apply andb_prop in Hx as [_ Hx]. apply andb_prop in Hy as [_ Hy].
    destruct (IH y Hx Hy Heq) as [-> ->]. done.
Qed.

Lemma key_more_inj (xs ys : list string) :
  Forall (λ x, quote_free x = true) xs → Forall (λ x, quote_free x = true) ys →
  key_more xs = key_more ys → xs = ys.
Proof.
  intros Hxs. revert ys.
  induction Hxs as [|x xs Hx Hxs IH]; intros ys Hys Heq;
    destruct Hys as [|y ys Hy Hys]; [done|discriminate|discriminate|].
  simpl in Heq. rewrite !append_cons in Heq. injection Heq as Heq.
  apply first_quote in Heq as [-> Heq]; [|done..].
  f_equal. by apply IH.
Qed.

Lemma key_items_inj (xs ys : list string) :
  Forall (λ x, quote_free x = true) xs → Forall (λ x, quote_free x = true) ys →
  key_items xs = key_items ys → xs = ys.
Proof.
  intros Hxs Hys Heq.
  destruct Hxs as [|x xs Hx Hxs], Hys as [|y ys Hy Hys];
    [done|by destruct ys|by destruct xs|].
  assert (∀ a l, key_items (a :: l)
                 = "'" +:+ a +:+ String "'"
                     match l with [] => ",)" | _ => key_more l end) as Hshape.
  { by intros a [|]. }
  rewrite !Hshape, !append_cons in Heq. injection Heq as Heq.
  apply first_quote in Heq as [-> Heq]; [|done..]. f_equal.
  destruct Hxs as [|x2 xs Hx2 Hxs], Hys as [|y2 ys Hy2 Hys];
    [done|discriminate|discriminate|].
  apply key_more_inj; by try constructor.
Qed.

(** Two slider positions whose values are written without a quote
    character get the same key only if they are written the same, item
    by item, over the same number of sliders: a key stands for one
    position. *)
Theorem build_key_injective (vals vals' : list jsval) (len len' : nat)
    (items items' : list string) :
  mapM stringify (slider_vals vals len) = Some items →
  mapM stringify (slider_vals vals' len') = Some items' →
  Forall (λ x, quote_free x = true) items →
  Forall (λ x, quote_free x = true) items' →
  build_key vals len = build_key vals' len' →
  items = items' ∧ len = len'.
Proof.
  intros Hitems Hitems' Hq Hq'. rewrite !build_key_tuple, Hitems, Hitems'.
  simpl. rewrite !tuple_key_items. intros [= Heq].
  apply key_items_inj in Heq as <-; [|done..]. split; [done|].
  apply length_mapM in Hitems, Hitems'.
  unfold slider_vals in *. rewrite length_fmap, length_seq in Hitems, Hitems'.
  congruence.
Qed.

End Widget.

(** * Examples *)

(** Keys as [set_frame] builds them: integers with one decimal, other
    numbers with ten, rounded half up on the exact value of the double
    (0.1 lies just above one tenth, 2.25 is exact), strings as they are,
    a trailing comma for a single slider. *)
Lemma build_key_examples :
  build_key demo_Number_toString
    [VNum (num 1); VNum (S754_finite false 1 (-1)); VStr "a"] 3
  = Some "('1.0', '0.5000000000', 'a')"
  ∧ build_key demo_Number_toString [VNum (num (-3))] 1 = Some "('-3.0',)"
  ∧ build_key demo_Number_toString
      [VNum (S754_finite false 3602879701896397 (-55));
       VNum (S754_finite true 9 (-2))] 2
    = Some "('0.1000000000', '-2.2500000000')"
  ∧ build_key demo_Number_toString [VStr "Monday"; VUndef] 2
    = Some "('Monday', 'undefined')"
  ∧ build_key demo_Number_toString [] 0 = Some "()".
Proof. vm_compute. repeat split. Qed.

(** Strings [isNaN] takes for numbers, and strings it does not. *)
Lemma str_isNaN_examples :
  str_isNaN "2015" = false ∧ str_isNaN " -3.5e+2 " = false
  ∧ str_isNaN "" = false ∧ str_isNaN "0x1F" = false
  ∧ str_isNaN "Infinity" = false ∧ str_isNaN ".5" = false
  ∧ str_isNaN "Monday" = true ∧ str_isNaN "1 2" = true
  ∧ str_isNaN "1e" = true ∧ str_isNaN "0x" = true ∧ str_isNaN "2015b" = true.
Proof. vm_compute. repeat split. Qed.

(** C5, counterexample: the widget over the years 2014 and 2015 holds
    both entries of its key map as soon as it is constructed, and no
    call on it changes the key map afterwards: nothing is added after
    construction. *)
Lemma keyMap_filled_at_construction :
  ∃ w, year_widget demo_server = Done w
    ∧ keyMap w = year_keyMap
    ∧ size (keyMap w) = 2
    ∧ ∀ c w', state_of (invoke demo_server demo_Number_toString c w) = Some w' →
        keyMap w' = keyMap w.
Proof.
  eexists. split; [vm_compute; reflexivity|].
  split; [reflexivity|]. split; [vm_compute; reflexivity|].
  intros c w' Hw'.
  lazymatch type of Hw' with
  | state_of (invoke _ _ _ ?w) = _ =>
      destruct (invoke_advances demo_server demo_Number_toString c w)
        as (w1 & Hw1 & Ha)
  end.
  assert (w1 = w') as -> by congruence. exact (advances_keyMap _ _ Ha).
Qed.

(** C6, counterexample: constructed in cached mode over the single
    frame numbered 1, the widget caches that frame and leaves it hidden;
    there is no frame 0 in the cache and nothing is displayed. *)
Lemma constructor_without_frame_0 :
  ∃ w, lone_frame_widget demo_server = Done w
    ∧ cache w
      = {[ Num 1 := Element "#_anim_img1" "_anim_img1_1" false
                      (Markup "<p>one</p>") ]}.
Proof. eexists. split; vm_compute; reflexivity. Qed.

(** C7, counterexample: frame 0 is requested at construction and again
    by [set_frame] before any response; the two responses are then
    handled in turn.  The cache entry shown holds the frame of the
    response handled first; the one handled last only went into
    [frames]. *)
Lemma callback_last_response_loses :
  ∃ w1 w2 w3 w4,
    live_widget demo_server = Done w1
    ∧ set_frame demo_Number_toString (VNum (num 0)) 0 w1 = Done w2
    ∧ kernel w2 = [update_request w1 (Num 0); update_request w1 (Num 0)]
    ∧ cache w2 = ∅
    ∧ callback demo_server (Num 0) "'<p>first</p>'" w2 = Done w3
    ∧ callback demo_server (Num 0) "'<p>second</p>'" w3 = Done w4
    ∧ cache w4 !! Num 0
      = Some (Element "#_anim_img1" "_anim_img1_0" true (Markup "<p>first</p>"))
    ∧ frames w4 !! Num 0 = Some "<p>second</p>".
Proof.
  do 4 eexists. repeat (split; [vm_compute; reflexivity|]).
  vm_compute; reflexivity.
Qed.

(** Frames that leave a gap.  With frames 0 and 2 cached, the response
    for frame 3 goes into [frames], but the loop of [update_cache],
    counting on from key 2, is past [frame_len] before it comes to the
    third key: frame 3 is not cached and the frame shown stays. *)
Lemma update_cache_skips_a_key :
  ∃ w w',
    gap_widget demo_server = Done w
    ∧ callback demo_server (Num 3) "'<p>d</p>'" w = Done w'
    ∧ frames w' !! Num 3 = Some "<p>d</p>"
    ∧ cache w' !! Num 3 = None
    ∧ cache w' = cache w.
Proof.
  do 2 eexists. repeat (split; [vm_compute; reflexivity|]).
  vm_compute; reflexivity.
Qed.

(** The widget a call returns, by evaluation. *)
Ltac built r :=
  lazymatch eval vm_compute in r with
  | Done ?w => w
  end.

Ltac evaluated := vm_compute; reflexivity.

(** On the live widget frame 1 is not cached: asking for it sends the
    one request. *)
Lemma dynamic_update_cases_witness :
  ∃ w w', live_widget demo_server = Done w
    ∧ cache w !! Num 1 = None
    ∧ dynamic_update (Num 1) w = Done w'
    ∧ kernel w' = (kernel w ++ [update_request w (Num 1)])%list.
Proof.
  let w := built (live_widget demo_server) in pose (w0 := w).
  destruct (dynamic_update_cases demo_server (Num 1) w0) as (_ & H & _).
  destruct H as (w' & Hw' & Hk & _); [evaluated|].
  exists w0, w'. split; [evaluated|]. split; [evaluated|].
  split; [exact Hw'|exact Hk].
Defined.

(** The cached two-frame widget comes up with frames 0 and 1 in the
    cache, frame 0 shown. *)
Lemma constructor_init_witness :
  ∃ w, slider_widget demo_server = Done w
    ∧ el_visible <$> cache w !! Num 0 = Some true
    ∧ el_visible <$> cache w !! Num 1 = Some false
    ∧ cache w !! Num 2 = None.
Proof.
  destruct (constructor_init demo_server
              {[ Num 0 := "<p>a</p>"; Num 1 := "<p>b</p>" ]} "1"
              ["_anim_widget1_x"]
              {[ "('0.0',)" := 0%N; "('0.5000000000',)" := 1%N ]}
              [VNum (num 0)] "" false "" true)
    as (_ & _ & _ & H).
  destruct (H eq_refl) as (w & Hw & _ & _ & Hc).
  - right. replace (size _) with 2%nat by evaluated.
    intros k. rewrite lookup_insert_is_Some. split.
    + intros [<-|[_ [x [<- _]%lookup_singleton_Some]]].
      * exists 0%nat. split; [lia|reflexivity].
      * exists 1%nat. split; [lia|reflexivity].
    + intros (i & Hi & ->). destruct i as [|[|i]]; [left; reflexivity| |lia].
      right. split; [discriminate|]. rewrite lookup_singleton_eq. eauto.
  - exists w. split; [exact Hw|]. rewrite !Hc. repeat split.
Defined.

(** A response for the cached frame 1 changes [frames] and leaves the
    cached markup. *)
Lemma callback_first_response_wins_witness :
  ∃ w w', slider_widget demo_server = Done w
    ∧ callback demo_server (Num 1) "'<p>new</p>'" w = Done w'
    ∧ el_content <$> cache w' !! Num 1 = Some (Markup "<p>b</p>")
    ∧ frames w' !! Num 1 = Some "<p>new</p>".
Proof.
  let w := built (slider_widget demo_server) in pose (w0 := w).
  destruct (callback_first_response_wins demo_server (Num 1) "'<p>new</p>'" w0)
    as (w' & Hw' & H & _).
  destruct (H (Element "#_anim_img1" "_anim_img1_1" false (Markup "<p>b</p>")))
    as [Hc Hf]; [evaluated|].
  exists w0, w'. split; [evaluated|]. split; [exact Hw'|].
  split; [rewrite Hc; reflexivity|exact Hf].
Defined.

(** [update(1)] on the two-frame widget hides frame 0 and shows frame 1. *)
Lemma update_shows_only_current_witness :
  ∃ w w', slider_widget demo_server = Done w
    ∧ update (Num 1) w = Done w'
    ∧ el_visible <$> cache w' !! Num 0 = Some false
    ∧ el_visible <$> cache w' !! Num 1 = Some true
    ∧ at_most_one_visible w'.
Proof.
  let w := built (slider_widget demo_server) in pose (w0 := w).
  destruct (update_shows_only_current demo_server demo_Number_toString
              (Num 1) w0) as (w' & Hw' & _ & H & Hv).
  destruct H as (_ & _ & Hc); [eexists; evaluated|].
  exists w0, w'. split; [evaluated|]. split; [exact Hw'|].
  split; [rewrite Hc; evaluated|]. split; [rewrite Hc; evaluated|].
  apply Hv. left. eexists. evaluated.
Defined.

(** On the two-frame widget [update_cache] keeps the frames, and a
    second call changes nothing. *)
Lemma update_cache_idempotent_witness :
  ∃ w w', slider_widget demo_server = Done w
    ∧ update_cache demo_server w = Done w'
    ∧ update_cache demo_server w' = Done w'.
Proof.
  let w := built (slider_widget demo_server) in pose (w0 := w).
  destruct (update_cache_idempotent demo_server w0)
    as (w' & Hw' & _ & _ & Hf & H).
  exists w0, w'. split; [evaluated|]. split; [exact Hw'|].
  apply H, Hf. evaluated.
Defined.

(** Slider value 7 has no entry in the key map of the two-frame widget. *)
Lemma set_frame_unknown_key_witness :
  ∃ w w', slider_widget demo_server = Done w
    ∧ set_frame demo_Number_toString (VNum (num 7)) 0 w = Done w'
    ∧ current_vals w' !! 0%nat = Some (VNum (num 7))
    ∧ current_frame w' = Undefined
    ∧ cache w' = cache w.
Proof.
  let w := built (slider_widget demo_server) in pose (w0 := w).
  destruct (set_frame_unknown_key demo_server demo_Number_toString
              (VNum (num 7)) 0 w0 "('7.0',)")
    as (w' & Hw' & Hv & Hf & H); [evaluated|evaluated|].
  destruct H as (Hc & _); [evaluated|left; evaluated|].
  exists w0, w'. split; [evaluated|]. split; [exact Hw'|].
  split; [exact Hv|]. split; [exact Hf|exact Hc].
Defined.

(** ** Further examples *)

(** On the widget with frames 0 and 2 cached and frame 3 asked for,
    [update_cache] finds the first key, 0, in the cache. *)
Lemma update_cache_reaches_witness :
  ∃ w w', gap_widget demo_server = Done w
    ∧ update_cache demo_server w = Done w'
    ∧ is_Some (cache w' !! Num 0).
Proof.
  let w := built (gap_widget demo_server) in pose (w0 := w).
  destruct (update_cache_reaches demo_server w0) as (w' & Hw' & Hfirst & _);
    [evaluated|evaluated|].
  exists w0, w'. split; [evaluated|]. split; [exact Hw'|].
  apply Hfirst. evaluated.
Defined.

(** Moving the slider of the two-frame widget to 0.5 shows frame 1 and
    hides frame 0. *)
Lemma set_frame_shows_frame_witness :
  ∃ w w', slider_widget demo_server = Done w
    ∧ set_frame demo_Number_toString (VNum (S754_finite false 1 (-1))) 0 w
      = Done w'
    ∧ current_frame w' = Num 1
    ∧ el_visible <$> cache w' !! Num 1 = Some true
    ∧ el_visible <$> cache w' !! Num 0 = Some false.
Proof.
  let w := built (slider_widget demo_server) in pose (w0 := w).
  destruct (set_frame_shows_frame demo_Number_toString
              (VNum (S754_finite false 1 (-1))) 0 w0 "('0.5000000000',)" 1)
    as (w' & Hw' & Hcf & _ & _ & _ & Hc);
    [evaluated|evaluated|eexists; evaluated|].
  exists w0, w'. split; [evaluated|]. split; [exact Hw'|].
  split; [exact Hcf|]. split; rewrite Hc; evaluated.
Defined.

(** Choosing the year "2015" on the widget over the years throws. *)
Lemma set_frame_digit_string_witness :
  ∃ w, year_widget demo_server = Done w
    ∧ set_frame demo_Number_toString (VStr "2015") 0 w
      = TypeError (set_current_vals (array_set 0 (VStr "2015")) w).
Proof.
  let w := built (year_widget demo_server) in pose (w0 := w).
  exists w0. split; [evaluated|].
  apply (set_frame_digit_string demo_Number_toString "2015" 0 w0);
    [discriminate|evaluated|vm_compute; lia].
Defined.

(** The cached two-frame widget has sent the kernel nothing. *)
Lemma cached_widget_never_asks_witness :
  ∃ w, slider_widget demo_server = Done w ∧ cached w = true ∧ kernel w = [].
Proof.
  let w := built (slider_widget demo_server) in pose (w0 := w).
  exists w0. split; [evaluated|].
  apply (cached_widget_never_asks demo_server demo_Number_toString w0).
  apply (driven_new demo_server demo_Number_toString
           {[ Num 0 := "<p>a</p>"; Num 1 := "<p>b</p>" ]} "1"
           ["_anim_widget1_x"]
           {[ "('0.0',)" := 0%N; "('0.5000000000',)" := 1%N ]}
           [VNum (num 0)] "" false ""); evaluated.
Defined.

(** The slider of the two-frame widget moved to its second position,
    then past its end, then back by a dropdown: no handler throws. *)
Lemma handlers_never_throw_witness :
  ∃ w, slider_widget demo_server = Done w
    ∧ Forall (λ r, ∃ w', r = Done w')
        (outcomes demo_Number_toString
           [Slide (Control "x" 0 [VNum (num 0); VNum (num 1)]) 1;
            Slide (Control "x" 0 [VNum (num 0); VNum (num 1)]) 5;
            Change (Control "x" 0 [VNum (num 0); VNum (num 1)]) 0]
           (Page ∅ w)).
Proof.
  let w := built (slider_widget demo_server) in pose (w0 := w).
  exists w0. split; [evaluated|].
  apply (handlers_never_throw demo_Number_toString
           [Slide (Control "x" 0 [VNum (num 0); VNum (num 1)]) 1;
            Slide (Control "x" 0 [VNum (num 0); VNum (num 1)]) 5;
            Change (Control "x" 0 [VNum (num 0); VNum (num 1)]) 0]
           (Page ∅ w0)).
  - change (Forall keyable [VNum (num 0)]).
    repeat constructor. intros s Hs. discriminate Hs.
  - repeat constructor; intros s Hs; discriminate Hs.
Defined.

(** P pressed at position 3 of a slider up to 5, 100 ms a frame. *)
Lemma keypress_play_witness :
  (keypress 80 3 5 100).*2 = [3; 4; 5]%Z
  ∧ (keypress 80 3 5 100).*1 = [300; 400; 500]%Z.
Proof.
  destruct (keypress_play 80 3 5 100) as (H2 & H1 & _); [by left|lia|].
  split; [exact H2|]. rewrite H1, H2. reflexivity.
Defined.

(** r pressed at position 2. *)
Lemma keypress_rewind_witness :
  (keypress 114 2 5 100).*2 = [2; 1; 0]%Z
  ∧ (keypress 114 2 5 100).*1 = [0; 100; 200]%Z.
Proof.
  destruct (keypress_rewind 114 2 5 100) as (H2 & H1 & _); [by right|lia|].
  split; [exact H2|exact H1].
Defined.

(** The last timer of a play over two values reads the second one. *)
Lemma keypress_in_range_witness :
  is_Some ([VNum (num 0); VNum (S754_finite false 1 (-1))] !! Z.to_nat 1).
Proof.
  apply (keypress_in_range 80 0 100
           [VNum (num 0); VNum (S754_finite false 1 (-1))] 100 1).
  - vm_compute. split; discriminate.
  - apply (list_elem_of_lookup_2 _ 1%nat). reflexivity.
Defined.

(** The year 2015 as a Number. *)
Lemma stringify_integer_witness :
  stringify demo_Number_toString (VNum (num 2015)) = Some "2015.0".
Proof.
  apply (stringify_integer demo_Number_toString 2015).
  vm_compute. discriminate.
Defined.

(** Values past the sliders play no part in the key. *)
Lemma build_key_injective_witness :
  build_key demo_Number_toString [VNum (num 1); VStr "a"] 2
  = build_key demo_Number_toString [VNum (num 1); VStr "a"; VStr "b"] 2
  ∧ ["1.0"; "a"] = ["1.0"; "a"] ∧ 2%nat = 2%nat.
Proof.
  split; [evaluated|].
  apply (build_key_injective demo_Number_toString
           [VNum (num 1); VStr "a"] [VNum (num 1); VStr "a"; VStr "b"]);
    [evaluated|evaluated|repeat constructor|repeat constructor|evaluated].
Defined.

(** The response for frame 0 on the live widget writes that frame and
    no other. *)
Lemma frames_written_by_callback_only_witness :
  ∃ w w', live_widget demo_server = Done w
    ∧ callback demo_server (Num 0) "'<p>a</p>'" w = Done w'
    ∧ frames w' = <[Num 0 := "<p>a</p>"]> (frames w).
Proof.
  let w := built (live_widget demo_server) in pose (w0 := w).
  let w := built (callback demo_server (Num 0) "'<p>a</p>'" w0) in
  pose (w1 := w).
  exists w0, w1. split; [evaluated|]. split; [evaluated|].
  apply (frames_written_by_callback_only demo_server demo_Number_toString
           (CallCallback (Num 0) "'<p>a</p>'") w0 w1).
  - apply (reachable_new demo_server demo_Number_toString ∅ "1"
             ["_anim_widget1_x"]
             {[ "('0.0',)" := 0%N; "('0.5000000000',)" := 1%N ]}
             [VNum (num 0)] "" false "" false). evaluated.
  - evaluated.
Defined.

(** The response for frame 0 of the widget that loads its frames by URL
    leaves frame 0 cached and shown. *)
Lemma callback_caches_frame_witness :
  ∃ w w' el, remote_widget demo_server = Done w
    ∧ callback demo_server (Num 0) "'<p>a</p>'" w = Done w'
    ∧ cache w' !! Num 0 = Some el ∧ el_visible el = true.
Proof.
  let w := built (remote_widget demo_server) in pose (w0 := w).
  destruct (callback_caches_frame demo_server 0 "'<p>a</p>'" w0)
    as (w' & el & Hw' & Hc & Hv); [left; evaluated|evaluated|].
  exists w0, w', el. split; [evaluated|]. split; [exact Hw'|].
  split; [exact Hc|exact Hv].
Defined.
